(** * mcp-spotify: the tool dispatcher of [src/index.ts]

    A shallow embedding of the [SpotifyServer] class: the required-field
    check [validateArgs], the tool catalog answered to [ListTools], and the
    [CallTool] request handler with its [switch] and its [catch] block.

    The handler classes, the API client and the [AuthManager] are
    collaborators of the dispatcher.  Their calls are kept as nodes of a
    small program tree ([prog]), so that "which collaborator was called,
    with what" is a property one can state; [run] interprets a tree against
    any implementation of the collaborators and records the calls made.

    The file has three parts: the program (values, [JSON.stringify] and
    [JSON.parse], the catalog, the dispatcher, the Token Manager the
    specification describes), the vocabulary of the properties, and the
    properties with their proofs. *)

From Stdlib Require Import String Ascii List ZArith Bool Lia.
From Stdlib Require Import DecimalString DecimalZ.
Import ListNotations.
Local Open Scope string_scope.

(** ** JavaScript values *)

Section Values.

(** The dispatcher never inspects a number; the type of JS numbers is left
    open here and fixed where text is produced from it. *)
Variable number : Type.

(** A JSON-shaped JS value.  An object is the list of its own enumerable
    string-keyed properties, in enumeration order.  A JS string is a
    [string] holding the bytes of its UTF-8 encoding: one byte for an ASCII
    character, two to four for any other code point.  A string with an
    unpaired surrogate has no UTF-8 encoding and is not represented. *)
Unset Elimination Schemes.
Inductive json : Type :=
| JNull
| JBool (b : bool)
| JNumber (n : number)
| JString (s : string)
| JArray (items : list json)
| JObject (members : list (string * json)).
Set Elimination Schemes.

(** [Record<string, unknown>] *)
Definition obj : Type := list (string * json).

Definition mem_string (k : string) (l : list string) : bool :=
  existsb (String.eqb k) l.

Definition keys (o : obj) : list string := map fst o.

Definition has_own_property (k : string) (o : obj) : bool :=
  mem_string k (keys o).

(** The property names every plain object inherits from [Object.prototype]. *)
Definition Object_prototype : list string :=
  [ "constructor"; "__defineGetter__"; "__defineSetter__"; "hasOwnProperty";
    "__lookupGetter__"; "__lookupSetter__"; "isPrototypeOf";
    "propertyIsEnumerable"; "toString"; "valueOf"; "__proto__";
    "toLocaleString" ].

(** [k in o]: own property, or found along the prototype chain. *)
Definition has_property (k : string) (o : obj) : bool :=
  has_own_property k o || mem_string k Object_prototype.

(** ** Protocol errors *)

(** [ErrorCode] of the MCP SDK. *)
Inductive ErrorCode : Type :=
| ConnectionClosed
| RequestTimeout
| ParseError
| InvalidRequest
| MethodNotFound
| InvalidParams
| InternalError.

Definition code_number (c : ErrorCode) : Z :=
  match c with
  | ConnectionClosed => -32000
  | RequestTimeout => -32001
  | ParseError => -32700
  | InvalidRequest => -32600
  | MethodNotFound => -32601
  | InvalidParams => -32602
  | InternalError => -32603
  end.

(** What a [throw] carries: an [McpError] built from a code and a message,
    or any other value, of which the dispatcher only ever uses the string
    it converts to ([`${error}`]). *)
Inductive exn : Type :=
| McpError (code : ErrorCode) (message : string)
| OtherError (rendering : string).

Definition instanceof_McpError (e : exn) : bool :=
  match e with
  | McpError _ _ => true
  | OtherError _ => false
  end.

(** How a call or a promise ends. *)
Inductive outcome (A : Type) : Type :=
| Fulfilled (a : A)
| Rejected (e : exn).
Arguments Fulfilled {A} a.
Arguments Rejected {A} e.

(** ** [validateArgs] *)

(** The [for] loop over [requiredFields]: the first field that is not
    [in args] stops the loop. *)
Fixpoint first_missing (args : obj) (requiredFields : list string)
  : option string :=
  match requiredFields with
  | [] => None
  | field :: rest =>
      if negb (has_property field args) then Some field
      else first_missing args rest
  end.

Definition validateArgs (args : option obj) (requiredFields : list string)
  : outcome obj :=
  match args with
  | None => Rejected (McpError InvalidParams "Arguments are required")
  | Some a =>
      match first_missing a requiredFields with
      | Some field =>
          Rejected (McpError InvalidParams ("Missing required field: " ++ field))
      | None => Fulfilled a
      end
  end.

(** [request.params.arguments || {}] *)
Definition or_empty (args : option obj) : option obj :=
  match args with
  | Some a => Some a
  | None => Some []
  end.

(** ** Collaborator calls and programs *)

(** One constructor per handler method the dispatcher calls. *)
Inductive HandlerCall : Type :=
| tracksHandler_search (args : obj)
| artistsHandler_getArtist (args : obj)
| artistsHandler_getMultipleArtists (args : obj)
| artistsHandler_getArtistTopTracks (args : obj)
| artistsHandler_getArtistRelatedArtists (args : obj)
| artistsHandler_getArtistAlbums (args : obj)
| albumsHandler_getAlbum (args : obj)
| albumsHandler_getAlbumTracks (args : obj)
| albumsHandler_getMultipleAlbums (args : obj)
| tracksHandler_getTrack (args : obj)
| tracksHandler_getAvailableGenres
| albumsHandler_getNewReleases (args : obj)
| tracksHandler_getRecommendations (args : obj)
| audiobooksHandler_getAudiobook (args : obj).

(** An [async] body: it returns, throws, or awaits a collaborator and goes
    on with how that call ended. *)
Inductive prog (A : Type) : Type :=
| Return (a : A)
| Throw (e : exn)
| AwaitToken (k : outcome string -> prog A)
| AwaitHandler (c : HandlerCall) (k : outcome json -> prog A).
Arguments Return {A} a.
Arguments Throw {A} e.
Arguments AwaitToken {A} k.
Arguments AwaitHandler {A} c k.

Fixpoint bind {A B : Type} (p : prog A) (f : A -> prog B) : prog B :=
  match p with
  | Return a => f a
  | Throw e => Throw e
  | AwaitToken k => AwaitToken (fun o => bind (k o) f)
  | AwaitHandler c k => AwaitHandler c (fun o => bind (k o) f)
  end.

(** [try { p } catch (error) { h error }] *)
Fixpoint try_catch {A : Type} (p : prog A) (h : exn -> prog A) : prog A :=
  match p with
  | Return a => Return a
  | Throw e => h e
  | AwaitToken k => AwaitToken (fun o => try_catch (k o) h)
  | AwaitHandler c k => AwaitHandler c (fun o => try_catch (k o) h)
  end.

(** A synchronous call that may throw. *)
Definition lift {A : Type} (o : outcome A) : prog A :=
  match o with
  | Fulfilled a => Return a
  | Rejected e => Throw e
  end.

(** [await this.authManager.getAccessToken()] *)
Definition await_token : prog string := AwaitToken lift.

(** [await this.<handler>.<method>(args)] *)
Definition await_handler (c : HandlerCall) : prog json := AwaitHandler c lift.

End Values.

Arguments Fulfilled {A} a.
Arguments Rejected {A} e.
Arguments JNull {number}.
Arguments JBool {number} b.
Arguments JNumber {number} n.
Arguments JString {number} s.
Arguments JArray {number} items.
Arguments JObject {number} members.
Arguments Return {number A} a.
Arguments Throw {number A} e.
Arguments AwaitToken {number A} k.
Arguments AwaitHandler {number A} c k.
Arguments bind {number A B} p f.
Arguments try_catch {number A} p h.
Arguments lift {number A} o.
Arguments await_token {number}.
Arguments await_handler {number} c.
Arguments validateArgs {number} args requiredFields.
Arguments first_missing {number} args requiredFields.
Arguments has_property {number} k o.
Arguments has_own_property {number} k o.
Arguments keys {number} o.
Arguments or_empty {number} args.

(** ** [JSON.stringify] and [JSON.parse] *)

(** The two functions of the language the dispatcher and its clients rely
    on, after the ECMAScript definitions: [JSON.stringify] with a numeric
    indentation (no replacer), and [JSON.parse] (no reviver). *)

Definition dquote : ascii := "034"%char.
Definition backslash : ascii := "092"%char.
Definition newline : ascii := "010"%char.
Definition nl : string := String newline "".

Definition hex_digit (n : N) : ascii :=
  if (n <? 10)%N then ascii_of_N (48 + n) else ascii_of_N (87 + n).

(** One byte of the string inside [QuoteJSONString]: an ASCII character
    is escaped as ECMAScript says; a byte of 128 or more belongs to the
    encoding of a code point that is written as it is. *)
Definition escape (c : ascii) : string :=
  let n := N_of_ascii c in
  if (n =? 34)%N then String backslash (String dquote "")
  else if (n =? 92)%N then String backslash (String backslash "")
  else if (n =? 8)%N then String backslash "b"
  else if (n =? 12)%N then String backslash "f"
  else if (n =? 10)%N then String backslash "n"
  else if (n =? 13)%N then String backslash "r"
  else if (n =? 9)%N then String backslash "t"
  else if (n <? 32)%N then
    String backslash
      (String "u" (String "0" (String "0"
        (String (hex_digit (n / 16)) (String (hex_digit (n mod 16)) "")))))
  else String c "".

Fixpoint escape_all (s : string) : string :=
  match s with
  | EmptyString => ""
  | String c r => escape c ++ escape_all r
  end.

Definition QuoteJSONString (s : string) : string :=
  String dquote (escape_all s ++ String dquote "").

Fixpoint join (sep : string) (parts : list string) : string :=
  match parts with
  | [] => ""
  | [p] => p
  | p :: rest => p ++ sep ++ join sep rest
  end.

Fixpoint spaces (n : nat) : string :=
  match n with
  | O => ""
  | S m => String " " (spaces m)
  end.

Section Text.

Variable number : Type.

(** [Number::toString] on the finite numbers a JSON body holds. *)
Variable show_number : number -> string.

(** The reading of a JSON number literal; [None] when the text is not one. *)
Variable read_number : string -> option number.

(** [SerializeJSONProperty] with its [SerializeJSONArray] and
    [SerializeJSONObject], for a value that holds neither [undefined] nor
    functions nor [toJSON] methods, as a parsed response body does;
    [gap] is the indentation unit, [indent] the current indentation. *)
Fixpoint serialize (gap indent : string) (v : json number) : string :=
  match v with
  | JNull => "null"
  | JBool true => "true"
  | JBool false => "false"
  | JNumber n => show_number n
  | JString s => QuoteJSONString s
  | JArray items =>
      let stepback := indent in
      let indent := indent ++ gap in
      match map (serialize gap indent) items with
      | [] => "[]"
      | partial =>
          match gap with
          | EmptyString => "[" ++ join "," partial ++ "]"
          | _ =>
              "[" ++ nl ++ indent ++ join ("," ++ nl ++ indent) partial
                  ++ nl ++ stepback ++ "]"
          end
      end
  | JObject members =>
      let stepback := indent in
      let indent := indent ++ gap in
      let colon := match gap with EmptyString => ":" | _ => ": " end in
      match map (fun kv => QuoteJSONString (fst kv) ++ colon
                             ++ serialize gap indent (snd kv)) members with
      | [] => "{}"
      | partial =>
          match gap with
          | EmptyString => "{" ++ join "," partial ++ "}"
          | _ =>
              "{" ++ nl ++ indent ++ join ("," ++ nl ++ indent) partial
                  ++ nl ++ stepback ++ "}"
          end
      end
  end.

(** [JSON.stringify(value, null, space)] for a numeric [space]. *)
Definition JSON_stringify (v : json number) (space : nat) : string :=
  serialize (spaces (Nat.min 10 space)) "" v.

(** JSON white space: space, tab, line feed, carriage return. *)
Definition is_ws (c : ascii) : bool :=
  let n := N_of_ascii c in
  ((n =? 32) || (n =? 9) || (n =? 10) || (n =? 13))%N.

Fixpoint skip_ws (s : string) : string :=
  match s with
  | EmptyString => ""
  | String c r => if is_ws c then skip_ws r else s
  end.

Definition hex_value (c : ascii) : option N :=
  let n := N_of_ascii c in
  if ((48 <=? n) && (n <=? 57))%N then Some (n - 48)%N
  else if ((97 <=? n) && (n <=? 102))%N then Some (n - 87)%N
  else if ((65 <=? n) && (n <=? 70))%N then Some (n - 55)%N
  else None.

(** The code unit written [\uXXXX]. *)
Definition unicode_escape (a b c d : ascii) : option N :=
  match hex_value a, hex_value b, hex_value c, hex_value d with
  | Some x3, Some x2, Some x1, Some x0 =>
      Some (((x3 * 16 + x2) * 16 + x1) * 16 + x0)%N
  | _, _, _, _ => None
  end.

Definition is_high_surrogate (n : N) : bool :=
  ((55296 <=? n) && (n <=? 56319))%N.

Definition is_low_surrogate (n : N) : bool :=
  ((56320 <=? n) && (n <=? 57343))%N.

(** The code point a surrogate pair stands for. *)
Definition surrogate_pair (high low : N) : N :=
  (65536 + (high - 55296) * 1024 + (low - 56320))%N.

(** The UTF-8 bytes of a code point. *)
Definition utf8 (n : N) : string :=
  if (n <? 128)%N then String (ascii_of_N n) ""
  else if (n <? 2048)%N then
    String (ascii_of_N (192 + n / 64))
      (String (ascii_of_N (128 + n mod 64)) "")
  else if (n <? 65536)%N then
    String (ascii_of_N (224 + n / 4096))
      (String (ascii_of_N (128 + (n / 64) mod 64))
         (String (ascii_of_N (128 + n mod 64)) ""))
  else
    String (ascii_of_N (240 + n / 262144))
      (String (ascii_of_N (128 + (n / 4096) mod 64))
         (String (ascii_of_N (128 + (n / 64) mod 64))
            (String (ascii_of_N (128 + n mod 64)) ""))).

Definition cons_char (c : ascii) (r : option (string * string))
  : option (string * string) :=
  match r with
  | Some (body, rest) => Some (String c body, rest)
  | None => None
  end.

Definition cons_code_point (n : N) (r : option (string * string))
  : option (string * string) :=
  match r with
  | Some (body, rest) => Some (utf8 n ++ body, rest)
  | None => None
  end.

(** The characters of a string literal after its opening quote, up to and
    including the closing quote.  A [\u] escape gives the code point it
    writes; the two escapes of a surrogate pair give one code point; an
    escaped surrogate without its other half is an unpaired surrogate,
    which is not represented, and is not read. *)
Fixpoint scan_string (s : string) : option (string * string) :=
  match s with
  | EmptyString => None
  | String c r =>
      let n := N_of_ascii c in
      if (n =? 34)%N then Some ("", r)
      else if (n =? 92)%N then
        match r with
        | EmptyString => None
        | String e r1 =>
            let m := N_of_ascii e in
            if (m =? 34)%N then cons_char dquote (scan_string r1)
            else if (m =? 92)%N then cons_char backslash (scan_string r1)
            else if (m =? 47)%N then cons_char "/" (scan_string r1)
            else if (m =? 98)%N then cons_char "008" (scan_string r1)
            else if (m =? 102)%N then cons_char "012" (scan_string r1)
            else if (m =? 110)%N then cons_char "010" (scan_string r1)
            else if (m =? 114)%N then cons_char "013" (scan_string r1)
            else if (m =? 116)%N then cons_char "009" (scan_string r1)
            else if (m =? 117)%N then
              match r1 with
              | String h3 (String h2 (String h1 (String h0 r2))) =>
                  match unicode_escape h3 h2 h1 h0 with
                  | Some u =>
                      if is_high_surrogate u then
                        match r2 with
                        | String b1 (String b2 (String l3 (String l2
                            (String l1 (String l0 r3))))) =>
                            if ((N_of_ascii b1 =? 92)
                                && (N_of_ascii b2 =? 117))%N then
                              match unicode_escape l3 l2 l1 l0 with
                              | Some v =>
                                  if is_low_surrogate v then
                                    cons_code_point (surrogate_pair u v)
                                      (scan_string r3)
                                  else None
                              | None => None
                              end
                            else None
                        | _ => None
                        end
                      else if is_low_surrogate u then None
                      else cons_code_point u (scan_string r2)
                  | None => None
                  end
              | _ => None
              end
            else None
        end
      else if (n <? 32)%N then None
      else cons_char c (scan_string r)
  end.

Definition is_number_char (c : ascii) : bool :=
  let n := N_of_ascii c in
  (((48 <=? n) && (n <=? 57)) || (n =? 45) || (n =? 43) || (n =? 46)
   || (n =? 101) || (n =? 69))%N.

Definition is_number_start (c : ascii) : bool :=
  let n := N_of_ascii c in
  (((48 <=? n) && (n <=? 57)) || (n =? 45))%N.

(** The longest run of number characters, and what follows it. *)
Fixpoint span_number (s : string) : string * string :=
  match s with
  | EmptyString => ("", "")
  | String c r =>
      if is_number_char c then
        let (lit, rest) := span_number r in (String c lit, rest)
      else ("", s)
  end.

(** [s] after the literal [lit], when [s] starts with it. *)
Fixpoint expect (lit s : string) : option string :=
  match lit with
  | EmptyString => Some s
  | String c l =>
      match s with
      | EmptyString => None
      | String d r => if Ascii.eqb c d then expect l r else None
      end
  end.

(** Defining a property: a key already there keeps its place and takes the
    new value, a new key goes last.  (An engine lists integer-like keys
    first; a value is taken with its members already in that order, and
    reading its text back meets them in the same order.) *)
Fixpoint obj_set (o : obj number) (k : string) (v : json number)
  : obj number :=
  match o with
  | [] => [(k, v)]
  | (k', v') :: r =>
      if String.eqb k' k then (k', v) :: r else (k', v') :: obj_set r k v
  end.

(** The recursive-descent reading of one JSON value at the head of [s]
    (no white space before it); [fuel] bounds the number of nested calls. *)
Fixpoint parse_value (fuel : nat) (s : string)
  : option (json number * string) :=
  match fuel with
  | O => None
  | S fuel =>
      match s with
      | EmptyString => None
      | String c r =>
          let n := N_of_ascii c in
          if (n =? 110)%N then
            match expect "ull" r with
            | Some rest => Some (JNull, rest)
            | None => None
            end
          else if (n =? 116)%N then
            match expect "rue" r with
            | Some rest => Some (JBool true, rest)
            | None => None
            end
          else if (n =? 102)%N then
            match expect "alse" r with
            | Some rest => Some (JBool false, rest)
            | None => None
            end
          else if (n =? 34)%N then
            match scan_string r with
            | Some (body, rest) => Some (JString body, rest)
            | None => None
            end
          else if (n =? 91)%N then
            match expect "]" (skip_ws r) with
            | Some rest => Some (JArray [], rest)
            | None =>
                match parse_elements fuel (skip_ws r) [] with
                | Some (items, rest) => Some (JArray items, rest)
                | None => None
                end
            end
          else if (n =? 123)%N then
            match expect "}" (skip_ws r) with
            | Some rest => Some (JObject [], rest)
            | None =>
                match parse_members fuel (skip_ws r) [] with
                | Some (members, rest) => Some (JObject members, rest)
                | None => None
                end
            end
          else if is_number_start c then
            let (lit, rest) := span_number s in
            match read_number lit with
            | Some x => Some (JNumber x, rest)
            | None => None
            end
          else None
      end
  end

with parse_elements (fuel : nat) (s : string) (acc : list (json number))
  : option (list (json number) * string) :=
  match fuel with
  | O => None
  | S fuel =>
      match parse_value fuel s with
      | Some (v, rest) =>
          match expect "," (skip_ws rest) with
          | Some r1 => parse_elements fuel (skip_ws r1) (acc ++ [v])%list
          | None =>
              match expect "]" (skip_ws rest) with
              | Some r1 => Some ((acc ++ [v])%list, r1)
              | None => None
              end
          end
      | None => None
      end
  end

with parse_members (fuel : nat) (s : string) (acc : obj number)
  : option (obj number * string) :=
  match fuel with
  | O => None
  | S fuel =>
      match expect (String dquote "") s with
      | Some r =>
          match scan_string r with
          | Some (k, r1) =>
              match expect ":" (skip_ws r1) with
              | Some r2 =>
                  match parse_value fuel (skip_ws r2) with
                  | Some (v, rest) =>
                      match expect "," (skip_ws rest) with
                      | Some r3 =>
                          parse_members fuel (skip_ws r3) (obj_set acc k v)
                      | None =>
                          match expect "}" (skip_ws rest) with
                          | Some r3 => Some (obj_set acc k v, r3)
                          | None => None
                          end
                      end
                  | None => None
                  end
              | None => None
              end
          | None => None
          end
      | None => None
      end
  end.

(** [JSON.parse(text)]; [None] stands for the [SyntaxError]. *)
Definition JSON_parse (text : string) : option (json number) :=
  match parse_value (S (String.length text)) (skip_ws text) with
  | Some (v, rest) =>
      match skip_ws rest with
      | EmptyString => Some v
      | _ => None
      end
  | None => None
  end.

End Text.

Arguments serialize {number} show_number gap indent v.
Arguments JSON_stringify {number} show_number v space.
Arguments obj_set {number} o k v.
Arguments parse_value {number} read_number fuel s.
Arguments parse_elements {number} read_number fuel s acc.
Arguments parse_members {number} read_number fuel s acc.
Arguments JSON_parse {number} read_number text.

(** ** The tool catalog answered to [ListTools] *)

Record ItemsSchema : Type := {
  items_type : string;
  items_enum : option (list string)
}.

Inductive PropertySchema : Type :=
| StringProperty (description : string) (enum : option (list string))
| NumberProperty (description : string) (minimum maximum default : option Z)
| ArrayProperty (items : ItemsSchema) (description : string)
    (maxItems : option Z).

Record InputSchema : Type := {
  schema_type : string;
  properties : list (string * PropertySchema);
  required : option (list string)
}.

Record Tool : Type := {
  name : string;
  description : string;
  inputSchema : InputSchema
}.

Definition strings : ItemsSchema :=
  {| items_type := "string"; items_enum := None |}.

Definition limit_property (what : string) (most : Z) : string * PropertySchema :=
  ("limit", NumberProperty what (Some 1%Z) (Some most) (Some 20%Z)).

Definition offset_property (what : string) : string * PropertySchema :=
  ("offset", NumberProperty what (Some 0%Z) None (Some 0%Z)).

Definition tools : list Tool :=
  [ {| name := "get_access_token";
       description := "Get a valid Spotify access token for API requests";
       inputSchema :=
         {| schema_type := "object"; properties := []; required := Some [] |} |};
    {| name := "search";
       description := "Search for tracks, albums, artists, or playlists";
       inputSchema :=
         {| schema_type := "object";
            properties :=
              [ ("query", StringProperty "Search query" None);
                ("type", StringProperty "Type of item to search for"
                           (Some ["track"; "album"; "artist"; "playlist"]));
                limit_property "Maximum number of results (1-50)" 50 ];
            required := Some ["query"; "type"] |} |};
    {| name := "get_artist";
       description := "Get Spotify catalog information for an artist";
       inputSchema :=
         {| schema_type := "object";
            properties :=
              [ ("id", StringProperty "The Spotify ID or URI for the artist" None) ];
            required := Some ["id"] |} |};
    {| name := "get_multiple_artists";
       description := "Get Spotify catalog information for multiple artists";
       inputSchema :=
         {| schema_type := "object";
            properties :=
              [ ("ids", ArrayProperty strings
                          "Array of Spotify artist IDs or URIs (max 50)"
                          (Some 50%Z)) ];
            required := Some ["ids"] |} |};
    {| name := "get_artist_top_tracks";
       description :=
         "Get Spotify catalog information about an artist's top tracks";
       inputSchema :=
         {| schema_type := "object";
            properties :=
              [ ("id", StringProperty "The Spotify ID or URI for the artist" None);
                ("market", StringProperty
                             "Optional. An ISO 3166-1 alpha-2 country code" None) ];
            required := Some ["id"] |} |};
    {| name := "get_artist_related_artists";
       description :=
         "Get Spotify catalog information about artists similar to a given artist";
       inputSchema :=
         {| schema_type := "object";
            properties :=
              [ ("id", StringProperty "The Spotify ID or URI for the artist" None) ];
            required := Some ["id"] |} |};
    {| name := "get_artist_albums";
       description :=
         "Get Spotify catalog information about an artist's albums";
       inputSchema :=
         {| schema_type := "object";
            properties :=
              [ ("id", StringProperty "The Spotify ID or URI for the artist" None);
                ("include_groups",
                 ArrayProperty
                   {| items_type := "string";
                      items_enum :=
                        Some ["album"; "single"; "appears_on"; "compilation"] |}
                   "Optional. Filter by album types" None);
                limit_property "Maximum number of albums to return (1-50)" 50;
                offset_property "The index of the first album to return" ];
            required := Some ["id"] |} |};
    {| name := "get_album";
       description := "Get Spotify catalog information for an album";
       inputSchema :=
         {| schema_type := "object";
            properties :=
              [ ("id", StringProperty "The Spotify ID or URI for the album" None) ];
            required := Some ["id"] |} |};
    {| name := "get_album_tracks";
       description := "Get Spotify catalog information for an album's tracks";
       inputSchema :=
         {| schema_type := "object";
            properties :=
              [ ("id", StringProperty "The Spotify ID or URI for the album" None);
                limit_property "Maximum number of tracks to return (1-50)" 50;
                offset_property "The index of the first track to return" ];
            required := Some ["id"] |} |};
    {| name := "get_multiple_albums";
       description := "Get Spotify catalog information for multiple albums";
       inputSchema :=
         {| schema_type := "object";
            properties :=
              [ ("ids", ArrayProperty strings
                          "Array of Spotify album IDs or URIs (max 20)"
                          (Some 20%Z)) ];
            required := Some ["ids"] |} |};
    {| name := "get_track";
       description := "Get Spotify catalog information for a track";
       inputSchema :=
         {| schema_type := "object";
            properties :=
              [ ("id", StringProperty "The Spotify ID or URI for the track" None) ];
            required := Some ["id"] |} |};
    {| name := "get_available_genres";
       description := "Get a list of available genre seeds for recommendations";
       inputSchema :=
         {| schema_type := "object"; properties := []; required := Some [] |} |};
    {| name := "get_new_releases";
       description := "Get a list of new album releases featured in Spotify";
       inputSchema :=
         {| schema_type := "object";
            properties :=
              [ ("country", StringProperty
                              "Optional. A country code (ISO 3166-1 alpha-2)" None);
                limit_property "Maximum number of releases to return (1-50)" 50;
                offset_property "The index of the first release to return" ];
            required := None |} |};
    {| name := "get_recommendations";
       description :=
         "Get track recommendations based on seed tracks, artists, or genres";
       inputSchema :=
         {| schema_type := "object";
            properties :=
              [ ("seed_tracks",
                 ArrayProperty strings "Array of Spotify track IDs or URIs" None);
                ("seed_artists",
                 ArrayProperty strings "Array of Spotify artist IDs or URIs" None);
                ("seed_genres", ArrayProperty strings "Array of genre names" None);
                limit_property "Maximum number of recommendations (1-100)" 100 ];
            required := Some [] |} |};
    {| name := "get_audiobook";
       description := "Get Spotify catalog information for an audiobook";
       inputSchema :=
         {| schema_type := "object";
            properties :=
              [ ("id", StringProperty "The Spotify ID or URI for the audiobook" None);
                ("market", StringProperty
                             "Optional. An ISO 3166-1 alpha-2 country code" None) ];
            required := Some ["id"] |} |} ].

(** The fields a schema requires; a schema without [required] requires
    none. *)
Definition required_fields (t : Tool) : list string :=
  match required (inputSchema t) with
  | Some fields => fields
  | None => []
  end.

Definition find_tool (n : string) : option Tool :=
  find (fun t => String.eqb (name t) n) tools.

(** ** The [CallTool] request handler *)

Record TextContent : Type := {
  type : string;
  text : string
}.

Record CallToolResult : Type := {
  content : list TextContent
}.

Section Dispatcher.

Variable number : Type.
Variable show_number : number -> string.

(** [request.params] *)
Record CallToolRequest : Type := {
  params_name : string;
  params_arguments : option (obj number)
}.

Notation "x <- p ;; k" := (bind p (fun x => k))
  (at level 61, p at next level, right associativity).

(** [{ content: [{ type: 'text', text }] }] *)
Definition text_content (t : string) : CallToolResult :=
  {| content := [ {| type := "text"; text := t |} ] |}.

(** The [switch] on [request.params.name], case by case. *)
Definition switch (request : CallToolRequest) : prog number CallToolResult :=
  let name := params_name request in
  let arguments := params_arguments request in
  if name =? "get_access_token" then
    token <- await_token ;;
    Return (text_content token)
  else if name =? "search" then
    args <- lift (validateArgs arguments ["query"; "type"]) ;;
    result <- await_handler (tracksHandler_search number args) ;;
    Return (text_content (JSON_stringify show_number result 2))
  else if name =? "get_artist" then
    args <- lift (validateArgs arguments ["id"]) ;;
    result <- await_handler (artistsHandler_getArtist number args) ;;
    Return (text_content (JSON_stringify show_number result 2))
  else if name =? "get_multiple_artists" then
    args <- lift (validateArgs arguments ["ids"]) ;;
    result <- await_handler (artistsHandler_getMultipleArtists number args) ;;
    Return (text_content (JSON_stringify show_number result 2))
  else if name =? "get_artist_top_tracks" then
    args <- lift (validateArgs arguments ["id"]) ;;
    result <- await_handler (artistsHandler_getArtistTopTracks number args) ;;
    Return (text_content (JSON_stringify show_number result 2))
  else if name =? "get_artist_related_artists" then
    args <- lift (validateArgs arguments ["id"]) ;;
    result <- await_handler (artistsHandler_getArtistRelatedArtists number args) ;;
    Return (text_content (JSON_stringify show_number result 2))
  else if name =? "get_artist_albums" then
    args <- lift (validateArgs arguments ["id"]) ;;
    result <- await_handler (artistsHandler_getArtistAlbums number args) ;;
    Return (text_content (JSON_stringify show_number result 2))
  else if name =? "get_album" then
    args <- lift (validateArgs arguments ["id"]) ;;
    result <- await_handler (albumsHandler_getAlbum number args) ;;
    Return (text_content (JSON_stringify show_number result 2))
  else if name =? "get_album_tracks" then
    args <- lift (validateArgs arguments ["id"]) ;;
    result <- await_handler (albumsHandler_getAlbumTracks number args) ;;
    Return (text_content (JSON_stringify show_number result 2))
  else if name =? "get_multiple_albums" then
    args <- lift (validateArgs arguments ["ids"]) ;;
    result <- await_handler (albumsHandler_getMultipleAlbums number args) ;;
    Return (text_content (JSON_stringify show_number result 2))
  else if name =? "get_track" then
    args <- lift (validateArgs arguments ["id"]) ;;
    result <- await_handler (tracksHandler_getTrack number args) ;;
    Return (text_content (JSON_stringify show_number result 2))
  else if name =? "get_available_genres" then
    result <- await_handler (tracksHandler_getAvailableGenres number) ;;
    Return (text_content (JSON_stringify show_number result 2))
  else if name =? "get_new_releases" then
    args <- lift (validateArgs (or_empty arguments) []) ;;
    result <- await_handler (albumsHandler_getNewReleases number args) ;;
    Return (text_content (JSON_stringify show_number result 2))
  else if name =? "get_recommendations" then
    args <- lift (validateArgs (or_empty arguments) []) ;;
    result <- await_handler (tracksHandler_getRecommendations number args) ;;
    Return (text_content (JSON_stringify show_number result 2))
  else if name =? "get_audiobook" then
    args <- lift (validateArgs arguments ["id"]) ;;
    result <- await_handler (audiobooksHandler_getAudiobook number args) ;;
    Return (text_content (JSON_stringify show_number result 2))
  else
    Throw (McpError MethodNotFound ("Unknown tool: " ++ name)).

(** The [catch] block. *)
Definition on_error (error : exn) : prog number CallToolResult :=
  if instanceof_McpError error then Throw error
  else
    match error with
    | OtherError rendering =>
        Throw (McpError InternalError ("Unexpected error: " ++ rendering))
    | McpError _ _ => Throw error
    end.

Definition CallTool (request : CallToolRequest) : prog number CallToolResult :=
  try_catch (switch request) on_error.

(** ** Running a program against its collaborators *)

(** What the dispatcher did to the outside, in order. *)
Inductive effect : Type :=
| TokenRequested
| HandlerInvoked (c : HandlerCall number).

(** An implementation of the collaborators over some state [W]: the token
    manager's store, the network, the clock. *)
Record collaborators (W : Type) : Type := {
  authManager_getAccessToken : W -> outcome string * W;
  handler : HandlerCall number -> W -> outcome (json number) * W
}.

Fixpoint run {W A : Type} (env : collaborators W) (p : prog number A) (w : W)
  : outcome A * W * list effect :=
  match p with
  | Return a => (Fulfilled a, w, [])
  | Throw e => (Rejected e, w, [])
  | AwaitToken k =>
      let (o, w1) := authManager_getAccessToken W env w in
      let '(r, w2, t) := run env (k o) w1 in
      (r, w2, TokenRequested :: t)
  | AwaitHandler c k =>
      let (o, w1) := handler W env c w in
      let '(r, w2, t) := run env (k o) w1 in
      (r, w2, HandlerInvoked c :: t)
  end.

End Dispatcher.

Arguments params_name {number} c.
Arguments params_arguments {number} c.
Arguments Build_CallToolRequest {number} params_name params_arguments.
Arguments switch {number} show_number request.
Arguments on_error {number} error.
Arguments CallTool {number} show_number request.
Arguments TokenRequested {number}.
Arguments HandlerInvoked {number} c.
Arguments authManager_getAccessToken {number W} c w.
Arguments handler {number W} c h w.
Arguments Build_collaborators {number W} authManager_getAccessToken handler.
Arguments run {number W A} env p w.

(** ** The Token Manager *)

(** Modelled from the spec: an access token is an opaque string value, an
    expiry timestamp and a token type (section 3).  The [AuthManager] class
    of [./utils/auth.js] is imported by [index.ts] but is not among the
    sources; timestamps and lifetimes are counted in seconds. *)
Record AccessToken : Type := {
  value : string;
  expiry : Z;
  token_type : string
}.

(** Modelled from the spec: the credential is a client identifier and a
    client secret, fixed for the life of the process (section 3). *)
Record Credential : Type := {
  client_id : string;
  client_secret : string
}.

(** Modelled from the spec: what the authorization endpoint answers to a
    client-credentials exchange: a token with its declared lifetime, or a
    failure with the upstream status and message (section 4.1). *)
Inductive ExchangeReply : Type :=
| Granted (access_token : string) (kind : string) (expires_in : N)
| Refused (status : string) (message : string).

(** Modelled from the spec: the token held in process memory (section 3),
    the only state of the Token Manager; [exchanges] is the other side of
    its network calls: the instants of the exchange calls the
    authorization endpoint has received so far, the latest first. *)
Record TokenStore : Type := {
  held : option AccessToken;
  exchanges : list Z
}.

(** Modelled from the spec: a failed exchange fails the call with an
    [AuthenticationError] carrying the upstream status and message. *)
Definition AuthenticationError (status message : string) : exn :=
  OtherError ("AuthenticationError: " ++ status ++ " " ++ message).

Section TokenManager.

Variable credential : Credential.

(** The authorization endpoint: its answer to the [n]-th exchange call. *)
Variable endpoint : Credential -> nat -> ExchangeReply.

(** Modelled from the spec: the safety margin, in seconds; the
    specification gives 60 as an example and fixes no value. *)
Variable safety_margin : Z.

(** Modelled from the spec: "perform a client-credentials token exchange
    against the authorization endpoint using the configured client
    identifier/secret; store the returned token and its computed expiry;
    return it"; the computed expiry is the instant of the exchange plus
    the lifetime the endpoint declares; on failure no retry is attempted
    and what was held stays. *)
Definition exchange (now : Z) (s : TokenStore)
  : outcome AccessToken * TokenStore :=
  match endpoint credential (length (exchanges s)) with
  | Granted v kind expires_in =>
      let t := {| value := v; expiry := now + Z.of_N expires_in;
                   token_type := kind |} in
      (Fulfilled t, {| held := Some t; exchanges := now :: exchanges s |})
  | Refused status message =>
      (Rejected (AuthenticationError status message),
       {| held := held s; exchanges := now :: exchanges s |})
  end.

(** Modelled from the spec: "held token's expiry (minus a safety margin,
    e.g. 60 seconds) has passed". *)
Definition expired (now : Z) (t : AccessToken) : bool :=
  (expiry t - safety_margin <? now)%Z.

(** Modelled from the spec: "if no token held, or held token's expiry
    (minus a safety margin) has passed, perform a client-credentials token
    exchange [...]. Otherwise return the held token without any network
    call" (section 4.1). *)
Definition getValidToken (now : Z) (s : TokenStore)
  : outcome AccessToken * TokenStore :=
  match held s with
  | Some t => if expired now t then exchange now s else (Fulfilled t, s)
  | None => exchange now s
  end.

(** Modelled from the spec: [getAccessToken], as [index.ts] calls it, hands
    out the string value of the valid token. *)
Definition getAccessToken (now : Z) (s : TokenStore)
  : outcome string * TokenStore :=
  match getValidToken now s with
  | (Fulfilled t, s1) => (Fulfilled (value t), s1)
  | (Rejected e, s1) => (Rejected e, s1)
  end.

(** The collaborators of a server whose token manager is the one above,
    at the instant [now]. *)
Definition with_token_manager {number : Type} (now : Z)
    (handlers : HandlerCall number -> TokenStore
                -> outcome (json number) * TokenStore)
  : collaborators number TokenStore :=
  {| authManager_getAccessToken := getAccessToken now;
     handler := handlers |}.

End TokenManager.

(** ** Integer-valued numbers *)

(** The decimal text of an integer, which is what [Number::toString] gives
    for an integer-valued number in the safe range, of magnitude below
    2^53.  Beyond it the two differ: [Number::toString] gives the shortest
    digits that identify the number, and an exponent form from 1e21 on;
    this function prints every digit. *)
Definition show_integer (z : Z) : string :=
  NilZero.string_of_int (Z.to_int z).

(** An integer literal is read back when it is the decimal text of its
    value: no leading zero, no sign on zero, no bare sign.  This is less
    than [JSON.parse] reads: a fraction or an exponent ([1.0], [1e2]) and
    [-0] are not read, and an integer beyond the safe range is kept exact
    where the engine rounds it. *)
Definition read_integer (s : string) : option Z :=
  match NilZero.int_of_string s with
  | Some d =>
      let z := Z.of_int d in
      if String.eqb (show_integer z) s then Some z else None
  | None => None
  end.

(** * The vocabulary of the properties *)

(** ** Text *)

Fixpoint all_chars (p : ascii -> bool) (s : string) : bool :=
  match s with
  | EmptyString => true
  | String c r => p c && all_chars p r
  end.

(** The text goes on with something that cannot continue a number. *)
Definition delimited (rest : string) : bool :=
  match rest with
  | EmptyString => true
  | String c _ => negb (is_number_char c)
  end.

(** The characters a serialized value can start with. *)
Definition value_start (c : ascii) : bool :=
  let n := N_of_ascii c in
  ((n =? 110) || (n =? 116) || (n =? 102) || (n =? 34) || (n =? 91)
   || (n =? 123))%N || is_number_start c.

Definition blank (s : string) : Prop := all_chars is_ws s = true.

(** The line break and indentation put before an item, none when [gap] is
    empty. *)
Definition pad (gap indent : string) : string :=
  match gap with
  | EmptyString => ""
  | _ => nl ++ indent
  end.

Definition colon_gap (gap : string) : string :=
  match gap with
  | EmptyString => ""
  | _ => " "
  end.

(** No two strings of the list are equal. *)
Fixpoint distinct (l : list string) : bool :=
  match l with
  | [] => true
  | k :: r => negb (mem_string k r) && distinct r
  end.

(** What the [catch] block makes of a thrown value. *)
Definition translate (e : exn) : exn :=
  match e with
  | McpError code message => McpError code message
  | OtherError rendering =>
      McpError InternalError ("Unexpected error: " ++ rendering)
  end.

Definition finish_token (o : outcome string) : outcome CallToolResult :=
  match o with
  | Fulfilled token => Fulfilled (text_content token)
  | Rejected e => Rejected (translate e)
  end.

(** The three codes the specification names. *)
Definition protocol_code (c : ErrorCode) : Prop :=
  c = InvalidParams \/ c = MethodNotFound \/ c = InternalError.

(** The names of the catalog. *)
Definition names : list string := map name tools.

(** The [maxItems] a tool's schema declares for one of its properties. *)
Definition declared_maxItems (tool property : string) : option Z :=
  match find_tool tool with
  | Some t =>
      match find (fun p => String.eqb (fst p) property)
                 (properties (inputSchema t)) with
      | Some (_, ArrayProperty _ _ m) => m
      | _ => None
      end
  | None => None
  end.

Section Vocabulary.

Variable number : Type.
Variable show_number : number -> string.
Variable read_number : string -> option number.

(** ** Values *)

(** Induction on a value, with the elements of an array and the members of
    an object as induction hypotheses. *)
Definition json_induction (P : json number -> Prop)
    (HNull : P JNull)
    (HBool : forall b, P (JBool b))
    (HNumber : forall n, P (JNumber n))
    (HString : forall s, P (JString s))
    (HArray : forall items, Forall P items -> P (JArray items))
    (HObject : forall members,
        Forall (fun kv => P (snd kv)) members -> P (JObject members))
  : forall v, P v :=
  fix go (v : json number) : P v :=
    match v with
    | JNull => HNull
    | JBool b => HBool b
    | JNumber n => HNumber n
    | JString s => HString s
    | JArray items =>
        HArray items
          ((fix all (l : list (json number)) : Forall P l :=
              match l with
              | [] => Forall_nil P
              | x :: r => Forall_cons x (go x) (all r)
              end) items)
    | JObject members =>
        HObject members
          ((fix all (l : list (string * json number))
              : Forall (fun kv => P (snd kv)) l :=
              match l with
              | [] => Forall_nil _
              | kv :: r => Forall_cons kv (go (snd kv)) (all r)
              end) members)
    end.

(** The number of nested parser calls a value takes. *)
Fixpoint size (v : json number) : nat :=
  match v with
  | JArray items => S (list_sum (map (fun x => S (size x)) items))
  | JObject members => S (list_sum (map (fun kv => S (size (snd kv))) members))
  | _ => 1
  end.

(** No object of the value, at any depth, has the same key twice: what
    every JS value satisfies. *)
Fixpoint distinct_keys (v : json number) : bool :=
  match v with
  | JArray items => forallb distinct_keys items
  | JObject members =>
      distinct (map fst members)
      && forallb (fun kv => distinct_keys (snd kv)) members
  | _ => true
  end.

(** What the text of numbers has to satisfy: it starts as a JSON number
    does, is made of number characters, and reads back as the number. *)
Definition number_format : Prop :=
  (forall n, match show_number n with
             | String c _ => is_number_start c = true
             | EmptyString => False
             end)
  /\ (forall n, all_chars is_number_char (show_number n) = true)
  /\ (forall n, read_number (show_number n) = Some n).

(** The text of the number [n] starts as a JSON number does, is made of
    number characters, and reads back as [n]. *)
Definition number_reads_back (n : number) : Prop :=
  match show_number n with
  | String c _ => is_number_start c = true
  | EmptyString => False
  end
  /\ all_chars is_number_char (show_number n) = true
  /\ read_number (show_number n) = Some n.

(** The numbers of a value, at any depth. *)
Fixpoint numbers_of (v : json number) : list number :=
  match v with
  | JNumber n => [n]
  | JArray items => flat_map numbers_of items
  | JObject members => flat_map (fun kv => numbers_of (snd kv)) members
  | _ => []
  end.

(** Every number of the value is printed in a text that reads back as
    that number. *)
Definition numbers_read_back (v : json number) : Prop :=
  Forall number_reads_back (numbers_of v).

(** The text of one member of an object. *)
Definition member_text (gap indent : string) (kv : string * json number)
  : string :=
  QuoteJSONString (fst kv) ++ (":" ++ colon_gap gap)
    ++ serialize show_number gap indent (snd kv).

(** Parsing the text of [v] gives [v] back and stops right after it. *)
Definition reads_back (v : json number) : Prop :=
  forall fuel gap indent rest,
    blank gap -> blank indent -> size v <= fuel -> delimited rest = true ->
    parse_value read_number fuel (serialize show_number gap indent v ++ rest)
    = Some (v, rest).

(** [o[k]] for an own property. *)
Fixpoint get_property (k : string) (o : obj number) : option (json number) :=
  match o with
  | [] => None
  | (k', v) :: r => if String.eqb k' k then Some v else get_property k r
  end.

(** [args.ids.length], when [args.ids] is an array. *)
Definition ids_length (args : obj number) : option nat :=
  match get_property "ids" args with
  | Some (JArray items) => Some (List.length items)
  | _ => None
  end.

(** ** Tool calls *)

(** How the [switch] treats a tool name. *)
Inductive route : Type :=
| ToToken
| ToHandler (substitute : bool) (requiredFields : list string)
    (method : obj number -> HandlerCall number)
| ToGenres
| Unknown.

Definition route_of (name : string) : route :=
  if name =? "get_access_token" then ToToken
  else if name =? "search" then
    ToHandler false ["query"; "type"] (tracksHandler_search number)
  else if name =? "get_artist" then
    ToHandler false ["id"] (artistsHandler_getArtist number)
  else if name =? "get_multiple_artists" then
    ToHandler false ["ids"] (artistsHandler_getMultipleArtists number)
  else if name =? "get_artist_top_tracks" then
    ToHandler false ["id"] (artistsHandler_getArtistTopTracks number)
  else if name =? "get_artist_related_artists" then
    ToHandler false ["id"] (artistsHandler_getArtistRelatedArtists number)
  else if name =? "get_artist_albums" then
    ToHandler false ["id"] (artistsHandler_getArtistAlbums number)
  else if name =? "get_album" then
    ToHandler false ["id"] (albumsHandler_getAlbum number)
  else if name =? "get_album_tracks" then
    ToHandler false ["id"] (albumsHandler_getAlbumTracks number)
  else if name =? "get_multiple_albums" then
    ToHandler false ["ids"] (albumsHandler_getMultipleAlbums number)
  else if name =? "get_track" then
    ToHandler false ["id"] (tracksHandler_getTrack number)
  else if name =? "get_available_genres" then ToGenres
  else if name =? "get_new_releases" then
    ToHandler true [] (albumsHandler_getNewReleases number)
  else if name =? "get_recommendations" then
    ToHandler true [] (tracksHandler_getRecommendations number)
  else if name =? "get_audiobook" then
    ToHandler false ["id"] (audiobooksHandler_getAudiobook number)
  else Unknown.

(** The end of a tool call whose handler ended with [o]. *)
Definition finish (o : outcome (json number)) : outcome CallToolResult :=
  match o with
  | Fulfilled result =>
      Fulfilled (text_content (JSON_stringify show_number result 2))
  | Rejected e => Rejected (translate e)
  end.

(** The arguments a handler call carries. *)
Definition call_args (c : HandlerCall number) : option (obj number) :=
  match c with
  | tracksHandler_search _ a
  | artistsHandler_getArtist _ a
  | artistsHandler_getMultipleArtists _ a
  | artistsHandler_getArtistTopTracks _ a
  | artistsHandler_getArtistRelatedArtists _ a
  | artistsHandler_getArtistAlbums _ a
  | albumsHandler_getAlbum _ a
  | albumsHandler_getAlbumTracks _ a
  | albumsHandler_getMultipleAlbums _ a
  | tracksHandler_getTrack _ a
  | albumsHandler_getNewReleases _ a
  | tracksHandler_getRecommendations _ a
  | audiobooksHandler_getAudiobook _ a => Some a
  | tracksHandler_getAvailableGenres _ => None
  end.

(** The collaborator call of the trace [tr] was rejected with [thrown],
    taking the outside from [w] to [w']. *)
Definition collaborator_rejected {W : Type} (env : collaborators number W)
    (w w' : W) (tr : list (effect number)) (thrown : exn) : Prop :=
  (tr = [TokenRequested]
   /\ authManager_getAccessToken env w = (Rejected thrown, w'))
  \/ (exists c, tr = [HandlerInvoked c]
               /\ handler env c w = (Rejected thrown, w')).

(** Every error a tool call ends with is a protocol error with one of the
    three codes, whatever the collaborators throw. *)
Definition errors_carry_protocol_codes : Prop :=
  forall (W : Type) (env : collaborators number W)
         (req : CallToolRequest number) (w w' : W) (e : exn)
         (tr : list (effect number)),
    run env (CallTool show_number req) w = (Rejected e, w', tr) ->
    exists code message, e = McpError code message /\ protocol_code code.

(** The property that every successful result is the pretty-printed JSON of
    some body, which parses back to that body. *)
Definition every_result_is_pretty_json : Prop :=
  forall (W : Type) (env : collaborators number W)
         (req : CallToolRequest number) (w w' : W)
         (result : CallToolResult) (tr : list (effect number)),
    run env (CallTool show_number req) w = (Fulfilled result, w', tr) ->
    exists body,
      result = text_content (JSON_stringify show_number body 2)
      /\ JSON_parse read_number (JSON_stringify show_number body 2) = Some body.

(** Collaborators that answer every call on the spot; used to tell tool
    names apart by what they do. *)
Definition idle : collaborators number unit :=
  {| authManager_getAccessToken := fun w => (Fulfilled "", w);
     handler := fun _ w => (Fulfilled JNull, w) |}.

(** ** The tool call [get_access_token] over the Token Manager *)

Variable credential : Credential.
Variable endpoint : Credential -> nat -> ExchangeReply.
Variable safety_margin : Z.
Variable handlers :
  HandlerCall number -> TokenStore -> outcome (json number) * TokenStore.

(** The tool call made at the instant [now]. *)
Definition get_access_token_at (now : Z) (arguments : option (obj number))
    (s : TokenStore)
  : outcome CallToolResult * TokenStore * list (effect number) :=
  run (with_token_manager credential endpoint safety_margin now handlers)
      (CallTool show_number
         {| params_name := "get_access_token";
            params_arguments := arguments |}) s.

(** The process starts with no token and no exchange made. *)
Definition initial_store : TokenStore := {| held := None; exchanges := [] |}.

(** The stores the process can be in: the initial one, and the one any
    call of the Token Manager, at any instant, leaves behind. *)
Inductive reachable : TokenStore -> Prop :=
| reachable_initial : reachable initial_store
| reachable_call (now : Z) (s : TokenStore) :
    reachable s ->
    reachable (snd (getValidToken credential endpoint safety_margin now s)).

(** The exchange the token [t] of the store [s] comes from: the endpoint
    received it at [instant] and answered with the value and the type of
    [t] and the lifetime [expires_in]; every exchange call it has received
    since then, it has refused. *)
Definition granted (s : TokenStore) (t : AccessToken) (instant : Z)
    (expires_in : N) : Prop :=
  exists later earlier,
    exchanges s = (later ++ instant :: earlier)%list
    /\ endpoint credential (length earlier)
       = Granted (value t) (token_type t) expires_in
    /\ (forall n, length earlier < n < length (exchanges s) ->
          exists status message,
            endpoint credential n = Refused status message).

(** The instant the server declared for the end of a token's life. *)
Definition declared_expiry (instant : Z) (expires_in : N) : Z :=
  instant + Z.of_N expires_in.

(** The last instant of the validity window of a token: its declared
    expiry less the safety margin (sections 3 and 4.1). *)
Definition window_end (instant : Z) (expires_in : N) : Z :=
  declared_expiry instant expires_in - safety_margin.

End Vocabulary.

Arguments size {number} v.
Arguments distinct_keys {number} v.
Arguments number_format {number} show_number read_number.
Arguments number_reads_back {number} show_number read_number n.
Arguments numbers_of {number} v.
Arguments numbers_read_back {number} show_number read_number v.
Arguments member_text {number} show_number gap indent kv.
Arguments reads_back {number} show_number read_number v.
Arguments get_property {number} k o.
Arguments ids_length {number} args.
Arguments ToToken {number}.
Arguments ToHandler {number} substitute requiredFields method.
Arguments ToGenres {number}.
Arguments Unknown {number}.
Arguments finish {number} show_number o.
Arguments call_args {number} c.
Arguments collaborator_rejected {number W} env w w' tr thrown.
Arguments errors_carry_protocol_codes {number} show_number.
Arguments every_result_is_pretty_json {number} show_number read_number.
Arguments get_access_token_at {number} show_number credential endpoint
  safety_margin handlers now arguments s.

(** ** Sample data *)

(** Collaborators that answer with a fixed token and a fixed reply per
    handler call, and count the calls they receive. *)
Definition answering (token : outcome string)
    (reply : HandlerCall Z -> outcome (json Z)) : collaborators Z nat :=
  {| authManager_getAccessToken := fun calls => (token, S calls);
     handler := fun c calls => (reply c, S calls) |}.

Definition tool_named (n : string) : Tool :=
  match find_tool n with
  | Some t => t
  | None =>
      {| name := n; description := "";
         inputSchema :=
           {| schema_type := "object"; properties := []; required := None |} |}
  end.

Definition an_artist : json Z :=
  JObject [ ("id", JString "0TnOYISbd1XYRBk9myaseg");
            ("name", JString "Pitbull");
            ("popularity", JNumber 82%Z);
            ("genres", JArray [JString "dance pop"; JString "miami hip hop"]);
            ("followers", JObject [("href", JNull); ("total", JNumber 10815342%Z)]) ].

(** A [search] whose [limit] is the string "banana". *)
Definition banana_search : obj Z :=
  [ ("query", JString "pitbull"); ("type", JString "artist");
    ("limit", JString "banana") ].

(** Fifty-one artist ids. *)
Definition fifty_one_ids : obj Z :=
  [ ("ids", JArray (repeat (JString "0TnOYISbd1XYRBk9myaseg") 51)) ].

(** A handler that refuses a call with more than fifty ids, as an upstream
    service that enforces the limit would make it. *)
Definition at_most_fifty_ids (c : HandlerCall Z) : outcome (json Z) :=
  match call_args c with
  | Some a =>
      match ids_length a with
      | Some n =>
          if Nat.ltb 50 n then
            Rejected (OtherError "Error: Request failed with status code 400")
          else Fulfilled (JArray [])
      | None => Fulfilled (JArray [])
      end
  | None => Fulfilled (JArray [])
  end.

(** An authorization endpoint that grants one-hour tokens, a new one at
    each exchange. *)
Definition hourly (c : Credential) (n : nat) : ExchangeReply :=
  Granted (if Nat.eqb n 0 then "BQD-first" else "BQD-later") "Bearer" 3600.

Definition the_credential : Credential :=
  {| client_id := "client"; client_secret := "secret" |}.

Definition no_handlers (c : HandlerCall Z) (s : TokenStore)
  : outcome (json Z) * TokenStore :=
  (Rejected (OtherError "Error: not reached"), s).

(** The store after a first call at instant 0 against [hourly]. *)
Definition first_token : AccessToken :=
  {| value := "BQD-first"; expiry := 3600; token_type := "Bearer" |}.

Definition first_store : TokenStore :=
  {| held := Some first_token; exchanges := [0%Z] |}.

(** ** Vocabulary of the further properties *)

(** The handler method a call names, as the source writes it. *)
Definition method_of {number : Type} (c : HandlerCall number) : string :=
  match c with
  | tracksHandler_search _ _ => "tracksHandler.search"
  | artistsHandler_getArtist _ _ => "artistsHandler.getArtist"
  | artistsHandler_getMultipleArtists _ _ => "artistsHandler.getMultipleArtists"
  | artistsHandler_getArtistTopTracks _ _ => "artistsHandler.getArtistTopTracks"
  | artistsHandler_getArtistRelatedArtists _ _ =>
      "artistsHandler.getArtistRelatedArtists"
  | artistsHandler_getArtistAlbums _ _ => "artistsHandler.getArtistAlbums"
  | albumsHandler_getAlbum _ _ => "albumsHandler.getAlbum"
  | albumsHandler_getAlbumTracks _ _ => "albumsHandler.getAlbumTracks"
  | albumsHandler_getMultipleAlbums _ _ => "albumsHandler.getMultipleAlbums"
  | tracksHandler_getTrack _ _ => "tracksHandler.getTrack"
  | tracksHandler_getAvailableGenres _ => "tracksHandler.getAvailableGenres"
  | albumsHandler_getNewReleases _ _ => "albumsHandler.getNewReleases"
  | tracksHandler_getRecommendations _ _ => "tracksHandler.getRecommendations"
  | audiobooksHandler_getAudiobook _ _ => "audiobooksHandler.getAudiobook"
  end.

(** The tool whose [case] calls a handler method. *)
Definition tool_of_method (m : string) : string :=
  if m =? "tracksHandler.search" then "search"
  else if m =? "artistsHandler.getArtist" then "get_artist"
  else if m =? "artistsHandler.getMultipleArtists" then "get_multiple_artists"
  else if m =? "artistsHandler.getArtistTopTracks" then "get_artist_top_tracks"
  else if m =? "artistsHandler.getArtistRelatedArtists" then
    "get_artist_related_artists"
  else if m =? "artistsHandler.getArtistAlbums" then "get_artist_albums"
  else if m =? "albumsHandler.getAlbum" then "get_album"
  else if m =? "albumsHandler.getAlbumTracks" then "get_album_tracks"
  else if m =? "albumsHandler.getMultipleAlbums" then "get_multiple_albums"
  else if m =? "tracksHandler.getTrack" then "get_track"
  else if m =? "tracksHandler.getAvailableGenres" then "get_available_genres"
  else if m =? "albumsHandler.getNewReleases" then "get_new_releases"
  else if m =? "tracksHandler.getRecommendations" then "get_recommendations"
  else if m =? "audiobooksHandler.getAudiobook" then "get_audiobook"
  else "".

Definition le_when_both (a b : option Z) : Prop :=
  match a, b with
  | Some x, Some y => (x <= y)%Z
  | _, _ => True
  end.

(** A declared property is consistent with itself: a default lies within
    the declared bounds, an enumeration lists each value once and is not
    empty, an item limit is positive. *)
Definition property_consistent (p : PropertySchema) : Prop :=
  match p with
  | StringProperty _ None => True
  | StringProperty _ (Some values) => values <> [] /\ NoDup values
  | NumberProperty _ minimum maximum default =>
      le_when_both minimum default /\ le_when_both default maximum
      /\ le_when_both minimum maximum
  | ArrayProperty items _ maxItems =>
      items_type items = "string"
      /\ match items_enum items with
         | Some values => values <> [] /\ NoDup values
         | None => True
         end
      /\ le_when_both (Some 1%Z) maxItems
  end.

(** The schema of a tool is consistent: an object schema whose property
    names are distinct, whose required fields are declared properties,
    and whose properties are consistent. *)
Definition schema_consistent (t : Tool) : Prop :=
  schema_type (inputSchema t) = "object"
  /\ NoDup (map fst (properties (inputSchema t)))
  /\ incl (required_fields t) (map fst (properties (inputSchema t)))
  /\ Forall (fun p => property_consistent (snd p)) (properties (inputSchema t)).

(** An [id] with an undeclared field next to it. *)
Definition artist_id : obj Z := [ ("id", JString "0TnOYISbd1XYRBk9myaseg") ].

Definition artist_id_and_more : obj Z :=
  [ ("verbose", JBool true); ("id", JString "0TnOYISbd1XYRBk9myaseg") ].

(** What the collaborator call [eff], made from [w], threw, if it threw. *)
Definition collaborator_failure {number W : Type}
    (env : collaborators number W) (w : W) (eff : effect number)
  : option exn :=
  match eff with
  | TokenRequested =>
      match fst (authManager_getAccessToken env w) with
      | Rejected thrown => Some thrown
      | Fulfilled _ => None
      end
  | HandlerInvoked c =>
      match fst (handler env c w) with
      | Rejected thrown => Some thrown
      | Fulfilled _ => None
      end
  end.

(** [request.params.arguments || {}] as an object. *)
Definition arguments_or_empty {number : Type} (arguments : option (obj number))
  : obj number :=
  match arguments with
  | Some a => a
  | None => []
  end.

(** * Properties *)

(** ** The definitions at work on small inputs *)

Example validateArgs_first_missing :
  validateArgs (number := Z) (Some [("query", JString "pitbull")])
    ["query"; "type"]
  = Rejected (McpError InvalidParams "Missing required field: type").
Proof. reflexivity. Qed.

Example validateArgs_undefined :
  validateArgs (number := Z) None []
  = Rejected (McpError InvalidParams "Arguments are required").
Proof. reflexivity. Qed.

Example validateArgs_null_value :
  validateArgs (number := Z) (Some [("id", JNull)]) ["id"]
  = Fulfilled [("id", JNull)].
Proof. reflexivity. Qed.

(** [in] also finds what an object inherits. *)
Example validateArgs_inherited :
  validateArgs (number := Z) (Some []) ["toString"] = Fulfilled [].
Proof. reflexivity. Qed.

Example stringify_array :
  JSON_stringify show_integer
    (JArray [JNumber 1%Z; JArray []; JBool true; JObject []; JNumber (-20)%Z]) 2
  = "[
  1,
  [],
  true,
  {},
  -20
]".
Proof. reflexivity. Qed.

Example stringify_compact :
  JSON_stringify show_integer
    (JArray [JNumber 1%Z; JArray [JNull]; JBool false]) 0
  = "[1,[null],false]".
Proof. reflexivity. Qed.

Example stringify_escapes :
  JSON_stringify show_integer (JString (String "009" (String "001" "a/b"))) 2
  = String dquote (String backslash "t" ++ String backslash "u0001a/b"
                   ++ String dquote "").
Proof. reflexivity. Qed.

Example parse_with_white_space :
  JSON_parse read_integer " [1 , [ ],true ,
   { } ] "
  = Some (JArray [JNumber 1%Z; JArray []; JBool true; JObject []]).
Proof. reflexivity. Qed.

Example artist_round_trip :
  JSON_parse read_integer (JSON_stringify show_integer an_artist 2)
  = Some an_artist.
Proof. reflexivity. Qed.

Example parse_rejects_leading_zero : JSON_parse read_integer "[01]" = None.
Proof. reflexivity. Qed.

Example parse_rejects_trailing_comma : JSON_parse read_integer "[1,]" = None.
Proof. reflexivity. Qed.

(** The escapes [\u00e9], [\u2019] and the pair [\ud83d\ude00] are read as
    the UTF-8 bytes of the code points they write. *)
Example parse_unicode_escapes :
  JSON_parse read_integer
    (String dquote
       (String backslash "u00e9" ++ String backslash "u2019"
        ++ String backslash "ud83d" ++ String backslash "ude00"
        ++ String dquote ""))
  = Some (JString
            (String "195" (String "169"
               (String "226" (String "128" (String "153"
                  (String "240" (String "159" (String "152"
                     (String "128" "")))))))))).
Proof. reflexivity. Qed.

Example parse_rejects_unpaired_surrogate :
  JSON_parse read_integer
    (String dquote (String backslash "ud83d" ++ String dquote ""))
  = None.
Proof. reflexivity. Qed.

(** Text outside ASCII is written as it is and read back. *)
Example non_ascii_round_trip :
  JSON_stringify show_integer
    (JString (String "195" (String "169" "t" ++ String "195" (String "169" ""))))
    2
  = String dquote
      (String "195" (String "169" "t" ++ String "195" (String "169" "")
       ++ String dquote ""))
  /\ JSON_parse read_integer
       (String dquote
          (String "195" (String "169" "t" ++ String "195" (String "169" "")
           ++ String dquote "")))
     = Some (JString
               (String "195" (String "169" "t"
                ++ String "195" (String "169" "")))).
Proof. split; reflexivity. Qed.

Example banana_search_dispatched :
  run (answering (Fulfilled "BQDtoken") (fun _ => Fulfilled an_artist))
      (CallTool show_integer
         {| params_name := "search";
            params_arguments := Some banana_search |}) 0
  = (Fulfilled (text_content (JSON_stringify show_integer an_artist 2)), 1,
     [HandlerInvoked (tracksHandler_search Z banana_search)]).
Proof. reflexivity. Qed.

Example access_token_text :
  run (answering (Fulfilled "BQDtoken") (fun _ => Fulfilled an_artist))
      (CallTool show_integer
         {| params_name := "get_access_token";
            params_arguments := None |}) 0
  = (Fulfilled (text_content "BQDtoken"), 1, [TokenRequested]).
Proof. reflexivity. Qed.

Example unknown_code : code_number MethodNotFound = (-32601)%Z.
Proof. reflexivity. Qed.

(** ** The dispatch table read off the [switch] *)

Section Routes.

Variable number : Type.
Variable show_number : number -> string.

(** The [switch] compares the name with one literal after the other. *)
Ltac each_case :=
  repeat match goal with
  | |- context [String.eqb ?a ?b] => destruct (String.eqb a b)
  end.

Ltac each_case_of n :=
  repeat match goal with
  | |- context [String.eqb n ?b] => destruct (String.eqb_spec n b)
  end.

(** One tool call against any collaborators, route by route. *)
Lemma run_CallTool {W : Type} (env : collaborators number W)
    (request : CallToolRequest number) (w : W) :
  run env (CallTool show_number request) w =
  match route_of number (params_name request) with
  | ToToken =>
      let (o, w1) := authManager_getAccessToken env w in
      (finish_token o, w1, [TokenRequested])
  | ToHandler substitute requiredFields method =>
      let arguments := params_arguments request in
      match validateArgs
              (if substitute then or_empty arguments else arguments)
              requiredFields with
      | Fulfilled args =>
          let (o, w1) := handler env (method args) w in
          (finish show_number o, w1, [HandlerInvoked (method args)])
      | Rejected e => (Rejected (translate e), w, [])
      end
  | ToGenres =>
      let (o, w1) :=
        handler env (tracksHandler_getAvailableGenres number) w in
      (finish show_number o, w1,
       [HandlerInvoked (tracksHandler_getAvailableGenres number)])
  | Unknown =>
      (Rejected (McpError MethodNotFound
                   ("Unknown tool: " ++ params_name request)), w, [])
  end.
Proof.
  unfold CallTool, switch, route_of.
  each_case; cbn;
    try (destruct (validateArgs _ _); cbn);
    try (destruct (handler env _ w) as [[r | e] w1];
         cbn; try destruct e; reflexivity);
    try (destruct (authManager_getAccessToken env w) as [[r | e] w1];
         cbn; try destruct e; reflexivity);
    try (destruct e; reflexivity); reflexivity.
Qed.

Lemma validateArgs_rejected (arguments : option (obj number))
    (requiredFields : list string) (e : exn) :
  validateArgs arguments requiredFields = Rejected e ->
  exists message, e = McpError InvalidParams message.
Proof.
  unfold validateArgs.
  destruct arguments as [a |]; [destruct (first_missing a requiredFields) |];
    intros H; inversion H; eauto.
Qed.

Lemma first_missing_none (args : obj number) (requiredFields : list string) :
  first_missing args requiredFields = None <->
  forallb (fun f => has_property f args) requiredFields = true.
Proof.
  induction requiredFields as [| f rest IH]; cbn.
  - tauto.
  - destruct (has_property f args); cbn; [exact IH | split; discriminate].
Qed.

Lemma own_property_in (k : string) (args : obj number) :
  has_own_property k args = true -> has_property k args = true.
Proof. unfold has_property. intros ->. reflexivity. Qed.

(** Each catalog entry and its [case] agree on the fields to check; the
    two cases that substitute [{}] check none. *)
Lemma catalog_routes :
  Forall (fun t =>
            match route_of number (name t) with
            | ToToken | ToGenres => required_fields t = []
            | ToHandler substitute requiredFields _ =>
                requiredFields = required_fields t
                /\ (substitute = true -> requiredFields = [])
            | Unknown => False
            end) tools.
Proof. repeat constructor; discriminate. Qed.

(** No required field of the catalog is a name inherited from
    [Object.prototype]. *)
Lemma required_not_inherited :
  Forall (fun t =>
            Forall (fun f => mem_string f Object_prototype = false)
                   (required_fields t)) tools.
Proof. repeat constructor. Qed.

Lemma unknown_route (n : string) :
  ~ In n names -> route_of number n = Unknown.
Proof.
  intros Hn. unfold route_of.
  repeat match goal with
  | |- context [String.eqb n ?b] =>
      destruct (String.eqb_spec n b) as [-> | _];
      [exfalso; apply Hn; cbn; tauto |]
  end.
  reflexivity.
Qed.

Lemma route_token (n : string) :
  route_of number n = ToToken -> n = "get_access_token".
Proof.
  unfold route_of.
  each_case_of n; intros H; try discriminate H; assumption.
Qed.

Lemma route_genres (n : string) :
  route_of number n = ToGenres -> n = "get_available_genres".
Proof.
  unfold route_of.
  each_case_of n; intros H; try discriminate H; assumption.
Qed.

Lemma route_handler_args (n : string) (substitute : bool)
    (fields : list string) (method : obj number -> HandlerCall number)
    (args : obj number) :
  route_of number n = ToHandler substitute fields method ->
  call_args (method args) = Some args.
Proof.
  unfold route_of.
  each_case; intros H; inversion H; reflexivity.
Qed.

End Routes.

(** ** [JSON.parse] after [JSON.stringify] *)

Lemma append_assoc (a b c : string) : (a ++ b) ++ c = a ++ (b ++ c).
Proof. induction a as [| x a IH]; cbn; [reflexivity | now rewrite IH]. Qed.

Lemma append_nil_r (a : string) : a ++ "" = a.
Proof. induction a as [| x a IH]; cbn; [reflexivity | now rewrite IH]. Qed.

Lemma length_append (a b : string) :
  String.length (a ++ b) = String.length a + String.length b.
Proof. induction a as [| x a IH]; cbn; [reflexivity | now rewrite IH]. Qed.

Lemma all_chars_append (p : ascii -> bool) (a b : string) :
  all_chars p (a ++ b) = all_chars p a && all_chars p b.
Proof.
  induction a as [| x a IH]; cbn; [reflexivity |].
  rewrite IH. apply andb_assoc.
Qed.

Lemma all_chars_spaces (n : nat) : all_chars is_ws (spaces n) = true.
Proof. induction n; cbn; auto. Qed.

Lemma skip_ws_blank (pre s : string) :
  all_chars is_ws pre = true -> skip_ws (pre ++ s) = skip_ws s.
Proof.
  induction pre as [| c pre IH]; cbn; [reflexivity |].
  intros H. apply andb_prop in H as [Hc Hpre]. rewrite Hc. auto.
Qed.

Lemma skip_ws_stop (c : ascii) (s : string) :
  is_ws c = false -> skip_ws (String c s) = String c s.
Proof. cbn. intros ->. reflexivity. Qed.

Lemma value_start_not_ws (c : ascii) : value_start c = true -> is_ws c = false.
Proof. destruct c as [[] [] [] [] [] [] [] []]; cbn; congruence. Qed.

Lemma scan_escape (c : ascii) (tail : string) :
  scan_string (escape c ++ tail) = cons_char c (scan_string tail).
Proof. destruct c as [[] [] [] [] [] [] [] []]; reflexivity. Qed.

Lemma scan_escape_all (s rest : string) :
  scan_string (escape_all s ++ String dquote rest) = Some (s, rest).
Proof.
  induction s as [| c s IH]; [reflexivity |].
  cbn [escape_all]. rewrite append_assoc, scan_escape, IH. reflexivity.
Qed.

Lemma span_number_literal (lit rest : string) :
  all_chars is_number_char lit = true -> delimited rest = true ->
  span_number (lit ++ rest) = (lit, rest).
Proof.
  intros Hlit Hrest. induction lit as [| c lit IH]; cbn.
  - destruct rest as [| d rest]; [reflexivity |].
    cbn in *. destruct (is_number_char d); [discriminate | reflexivity].
  - cbn in Hlit. apply andb_prop in Hlit as [Hc Hlit].
    rewrite Hc, (IH Hlit). reflexivity.
Qed.

Section RoundTrip.

Variable number : Type.
Variable show_number : number -> string.
Variable read_number : string -> option number.

Lemma blank_append (a b : string) : blank a -> blank b -> blank (a ++ b).
Proof.
  unfold blank. intros Ha Hb. rewrite all_chars_append, Ha, Hb. reflexivity.
Qed.

Lemma blank_pad (gap indent : string) : blank indent -> blank (pad gap indent).
Proof.
  intros H. unfold pad. destruct gap; [reflexivity |].
  apply blank_append; [reflexivity | exact H].
Qed.

Lemma blank_colon_gap (gap : string) : blank (colon_gap gap).
Proof. destruct gap; reflexivity. Qed.

Lemma serialize_array (gap indent : string) (x : json number)
    (items : list (json number)) :
  serialize show_number gap indent (JArray (x :: items)) =
  "[" ++ pad gap (indent ++ gap)
      ++ join (String "," (pad gap (indent ++ gap)))
              (map (serialize show_number gap (indent ++ gap)) (x :: items))
      ++ pad gap indent ++ "]".
Proof.
  cbn [serialize map]. unfold pad. destruct gap; cbn [append].
  - rewrite append_nil_r. reflexivity.
  - reflexivity.
Qed.

Lemma serialize_object (gap indent : string) (kv : string * json number)
    (members : list (string * json number)) :
  serialize show_number gap indent (JObject (kv :: members)) =
  "{" ++ pad gap (indent ++ gap)
      ++ join (String "," (pad gap (indent ++ gap)))
              (map (member_text show_number gap (indent ++ gap)) (kv :: members))
      ++ pad gap indent ++ "}".
Proof.
  cbn [serialize map]. unfold pad, member_text, colon_gap.
  destruct gap; cbn [append].
  - rewrite append_nil_r. reflexivity.
  - reflexivity.
Qed.

Lemma numbers_of_items (items : list (json number)) :
  numbers_read_back show_number read_number (JArray items) ->
  Forall (numbers_read_back show_number read_number) items.
Proof.
  unfold numbers_read_back. cbn [numbers_of]. intros H.
  apply Forall_flat_map in H. exact H.
Qed.

Lemma numbers_of_members (members : list (string * json number)) :
  numbers_read_back show_number read_number (JObject members) ->
  Forall (fun kv => numbers_read_back show_number read_number (snd kv))
         members.
Proof.
  unfold numbers_read_back. cbn [numbers_of]. intros H.
  apply Forall_flat_map in H. exact H.
Qed.

Lemma number_format_everywhere (v : json number) :
  number_format show_number read_number ->
  numbers_read_back show_number read_number v.
Proof.
  intros (Hstart & Hchars & Hread). apply Forall_forall. intros n _.
  split; [apply Hstart | split; [apply Hchars | apply Hread]].
Qed.

Lemma number_start_value (c : ascii) :
  is_number_start c = true -> value_start c = true.
Proof. unfold value_start. intros ->. apply orb_true_r. Qed.

Lemma serialize_start (gap indent : string) (v : json number) :
  numbers_read_back show_number read_number v ->
  exists c r,
    serialize show_number gap indent v = String c r /\ value_start c = true.
Proof.
  intros Hv.
  destruct v as [| [] | n | s | [| x items] | [| kv members]];
    try (eexists _, _; split; [reflexivity | reflexivity]).
  - inversion Hv as [| ? ? (Hstart & _ & _) _]; subst.
    destruct (show_number n) as [| c r] eqn:Hn; [contradiction |].
    exists c, r. cbn [serialize]. rewrite Hn.
    split; [reflexivity | apply number_start_value, Hstart].
  - rewrite serialize_array. eexists _, _; split; reflexivity.
  - rewrite serialize_object. eexists _, _; split; reflexivity.
Qed.

Lemma skip_ws_value (gap indent : string) (v : json number) (rest : string) :
  numbers_read_back show_number read_number v ->
  skip_ws (serialize show_number gap indent v ++ rest)
  = serialize show_number gap indent v ++ rest.
Proof.
  intros Hv.
  destruct (serialize_start gap indent v Hv) as (c & r & -> & Hc).
  apply skip_ws_stop, value_start_not_ws, Hc.
Qed.

Lemma parse_elements_S (fuel : nat) (s : string) (acc : list (json number)) :
  parse_elements read_number (S fuel) s acc =
  match parse_value read_number fuel s with
  | Some (v, rest) =>
      match expect "," (skip_ws rest) with
      | Some r1 =>
          parse_elements read_number fuel (skip_ws r1) (acc ++ [v])%list
      | None =>
          match expect "]" (skip_ws rest) with
          | Some r1 => Some ((acc ++ [v])%list, r1)
          | None => None
          end
      end
  | None => None
  end.
Proof. reflexivity. Qed.

Lemma parse_members_S (fuel : nat) (k : string) (r1 : string)
    (acc : obj number) :
  parse_members read_number (S fuel)
    (String dquote (escape_all k ++ String dquote r1)) acc =
  match expect ":" (skip_ws r1) with
  | Some r2 =>
      match parse_value read_number fuel (skip_ws r2) with
      | Some (v, rest) =>
          match expect "," (skip_ws rest) with
          | Some r3 =>
              parse_members read_number fuel (skip_ws r3) (obj_set acc k v)
          | None =>
              match expect "}" (skip_ws rest) with
              | Some r3 => Some (obj_set acc k v, r3)
              | None => None
              end
          end
      | None => None
      end
  | None => None
  end.
Proof.
  cbn [parse_members]. change (expect (String dquote "") (String dquote ?x))
    with (Some x).
  cbn [expect Ascii.eqb Bool.eqb dquote].
  rewrite scan_escape_all. reflexivity.
Qed.

Lemma parse_array_S (fuel : nat) (r : string) :
  parse_value read_number (S fuel) (String "[" r) =
  match expect "]" (skip_ws r) with
  | Some rest => Some (JArray [], rest)
  | None =>
      match parse_elements read_number fuel (skip_ws r) [] with
      | Some (items, rest) => Some (JArray items, rest)
      | None => None
      end
  end.
Proof. reflexivity. Qed.

Lemma parse_object_S (fuel : nat) (r : string) :
  parse_value read_number (S fuel) (String "{" r) =
  match expect "}" (skip_ws r) with
  | Some rest => Some (JObject [], rest)
  | None =>
      match parse_members read_number fuel (skip_ws r) [] with
      | Some (members, rest) => Some (JObject members, rest)
      | None => None
      end
  end.
Proof. reflexivity. Qed.

Lemma parse_number_S (fuel : nat) (c : ascii) (r : string) :
  is_number_start c = true ->
  parse_value read_number (S fuel) (String c r) =
  let (lit, rest) := span_number (String c r) in
  match read_number lit with
  | Some x => Some (JNumber x, rest)
  | None => None
  end.
Proof.
  intros Hc. cbn [parse_value].
  destruct c as [[] [] [] [] [] [] [] []]; try discriminate Hc; reflexivity.
Qed.

Lemma value_start_not_closing (c : ascii) (r : string) :
  value_start c = true ->
  expect "]" (String c r) = None /\ expect "}" (String c r) = None.
Proof.
  destruct c as [[] [] [] [] [] [] [] []]; cbn; intros H;
    try discriminate H; auto.
Qed.

(** After an item comes a comma or the closing bracket, possibly after
    white space: never something a number could go on with. *)
Lemma delimited_after_item (ws : string) (c : ascii) (rest : string) :
  blank ws -> is_number_char c = false -> is_ws c = false ->
  delimited (ws ++ String c rest) = true
  /\ skip_ws (ws ++ String c rest) = String c rest.
Proof.
  intros Hws Hc Hc'. split.
  - destruct ws as [| d ws]; cbn.
    + rewrite Hc. reflexivity.
    + unfold blank in Hws. cbn in Hws. apply andb_prop in Hws as [Hd _].
      revert Hd. clear.
      destruct d as [[] [] [] [] [] [] [] []]; cbn; congruence.
  - rewrite (skip_ws_blank _ _ Hws). apply skip_ws_stop, Hc'.
Qed.

Lemma at_comma (s : string) :
  skip_ws (String "," s) = String "," s
  /\ expect "," (String "," s) = Some s.
Proof. split; reflexivity. Qed.

Lemma at_colon (s : string) :
  skip_ws (String ":" s) = String ":" s
  /\ expect ":" (String ":" s) = Some s.
Proof. split; reflexivity. Qed.

Lemma at_bracket (s : string) :
  expect "," (String "]" s) = None /\ expect "]" (String "]" s) = Some s.
Proof. split; reflexivity. Qed.

Lemma at_brace (s : string) :
  expect "," (String "}" s) = None /\ expect "}" (String "}" s) = Some s.
Proof. split; reflexivity. Qed.

Lemma join_map_cons {A : Type} (f : A -> string) (sep : string) (x y : A)
    (l : list A) :
  join sep (map f (x :: y :: l)) = f x ++ sep ++ join sep (map f (y :: l)).
Proof. reflexivity. Qed.

Lemma skip_ws_items (gap indent sep : string) (x : json number)
    (items : list (json number)) (tail : string) :
  numbers_read_back show_number read_number x ->
  skip_ws (join sep (map (serialize show_number gap indent) (x :: items)) ++ tail)
  = join sep (map (serialize show_number gap indent) (x :: items)) ++ tail.
Proof.
  intros Hx. destruct items as [| y items].
  - apply skip_ws_value, Hx.
  - rewrite join_map_cons, append_assoc. apply skip_ws_value, Hx.
Qed.

Lemma items_not_closing (gap indent sep : string) (x : json number)
    (items : list (json number)) (tail : string) :
  numbers_read_back show_number read_number x ->
  expect "]"
    (join sep (map (serialize show_number gap indent) (x :: items)) ++ tail)
  = None.
Proof.
  intros Hx.
  destruct items as [| y items]; [cbn [map join] | rewrite join_map_cons];
    destruct (serialize_start gap indent x Hx) as (c & r & -> & Hc);
    apply (value_start_not_closing c _ Hc).
Qed.

Lemma parse_elements_join (gap indent pre post : string) :
  blank gap -> blank indent -> blank pre -> blank post ->
  forall items x acc fuel rest,
    Forall (numbers_read_back show_number read_number) (x :: items) ->
    Forall (reads_back show_number read_number) (x :: items) ->
    list_sum (map (fun y => S (size y)) (x :: items)) <= fuel ->
    parse_elements read_number fuel
      (join (String "," pre) (map (serialize show_number gap indent) (x :: items))
         ++ post ++ String "]" rest) acc
    = Some ((acc ++ x :: items)%list, rest).
Proof.
  intros Hgap Hindent Hpre Hpost.
  induction items as [| y items IH]; intros x acc fuel rest Hnum Hall Hfuel;
    inversion Hall as [| ? ? Hx Hrest]; subst;
    inversion Hnum as [| ? ? Hnx Hnrest]; subst;
    destruct fuel as [| fuel]; try (cbn in Hfuel; lia);
    rewrite parse_elements_S.
  - cbn [map join].
    destruct (delimited_after_item post "]" rest Hpost eq_refl eq_refl)
      as [Hd Hskip].
    rewrite (Hx fuel gap indent _ Hgap Hindent); [| cbn in Hfuel; lia | exact Hd].
    rewrite Hskip, (proj1 (at_bracket rest)), (proj2 (at_bracket rest)).
    reflexivity.
  - rewrite join_map_cons. rewrite !append_assoc. cbn [append].
    rewrite (Hx fuel gap indent _ Hgap Hindent);
      [| cbn in Hfuel; cbn; lia | reflexivity].
    rewrite (proj1 (at_comma _)), (proj2 (at_comma _)).
    rewrite (skip_ws_blank _ _ Hpre), skip_ws_items;
      [| inversion Hnrest; assumption].
    rewrite (IH y (acc ++ [x])%list fuel rest Hnrest Hrest);
      [| cbn in Hfuel; cbn; lia].
    rewrite <- app_assoc. reflexivity.
Qed.

Lemma obj_set_fresh (acc : obj number) (k : string) (v : json number) :
  ~ In k (map fst acc) -> obj_set acc k v = (acc ++ [(k, v)])%list.
Proof.
  induction acc as [| [k' v'] acc IH]; cbn; [reflexivity |].
  intros Hk. destruct (String.eqb_spec k' k) as [-> | _].
  - exfalso. apply Hk. now left.
  - rewrite IH; [reflexivity |]. intros Hin. apply Hk. now right.
Qed.

Lemma member_text_append (gap indent k : string) (v : json number)
    (tail : string) :
  member_text show_number gap indent (k, v) ++ tail
  = String dquote
      (escape_all k
         ++ String dquote
              (String ":" (colon_gap gap
                             ++ serialize show_number gap indent v ++ tail))).
Proof.
  unfold member_text, QuoteJSONString. cbn [fst snd append].
  rewrite !append_assoc. cbn [append]. rewrite !append_assoc. reflexivity.
Qed.

Lemma skip_ws_members (gap indent sep : string) (kv : string * json number)
    (members : list (string * json number)) (tail : string) :
  skip_ws (join sep (map (member_text show_number gap indent) (kv :: members)) ++ tail)
  = join sep (map (member_text show_number gap indent) (kv :: members)) ++ tail.
Proof.
  destruct kv as [k v].
  destruct members as [| kv2 members];
    [cbn [map join] | rewrite join_map_cons, !append_assoc];
    rewrite member_text_append; reflexivity.
Qed.

Lemma parse_members_join (gap indent pre post : string) :
  blank gap -> blank indent -> blank pre -> blank post ->
  forall members kv acc fuel rest,
    Forall (fun m => numbers_read_back show_number read_number (snd m))
           (kv :: members) ->
    Forall (fun m => reads_back show_number read_number (snd m)) (kv :: members) ->
    NoDup (map fst acc ++ map fst (kv :: members))%list ->
    list_sum (map (fun m => S (size (snd m))) (kv :: members)) <= fuel ->
    parse_members read_number fuel
      (join (String "," pre) (map (member_text show_number gap indent) (kv :: members))
         ++ post ++ String "}" rest) acc
    = Some ((acc ++ kv :: members)%list, rest).
Proof.
  intros Hgap Hindent Hpre Hpost.
  induction members as [| kv' members IH];
    intros [k v] acc fuel rest Hnum Hall Hkeys Hfuel;
    inversion Hall as [| ? ? Hv Hrest]; subst; cbn [snd] in Hv;
    inversion Hnum as [| ? ? Hnv Hnrest]; subst; cbn [snd] in Hnv;
    destruct fuel as [| fuel]; try (cbn in Hfuel; lia);
    (assert (Hfresh : ~ In k (map fst acc))
      by (cbn [map fst] in Hkeys; apply NoDup_remove_2 in Hkeys;
          intros Hin; apply Hkeys, in_or_app; now left)).
  - cbn [map join]. rewrite member_text_append, parse_members_S.
    rewrite (proj1 (at_colon _)), (proj2 (at_colon _)).
    rewrite (skip_ws_blank _ _ (blank_colon_gap gap)), skip_ws_value;
      [| exact Hnv].
    destruct (delimited_after_item post "}" rest Hpost eq_refl eq_refl)
      as [Hd Hskip].
    rewrite (Hv fuel gap indent _ Hgap Hindent);
      [| cbn in Hfuel; lia | exact Hd].
    rewrite Hskip, (proj1 (at_brace rest)), (proj2 (at_brace rest)).
    rewrite (obj_set_fresh _ _ _ Hfresh). reflexivity.
  - rewrite join_map_cons. rewrite !append_assoc.
    rewrite member_text_append, parse_members_S.
    rewrite (proj1 (at_colon _)), (proj2 (at_colon _)).
    rewrite (skip_ws_blank _ _ (blank_colon_gap gap)), skip_ws_value;
      [| exact Hnv].
    cbn [append].
    rewrite (Hv fuel gap indent _ Hgap Hindent);
      [| cbn in Hfuel; cbn; lia | reflexivity].
    rewrite (proj1 (at_comma _)), (proj2 (at_comma _)).
    change ("}" ++ rest) with (String "}" rest).
    rewrite (skip_ws_blank _ _ Hpre), skip_ws_members.
    rewrite (obj_set_fresh _ _ _ Hfresh).
    rewrite (IH kv' (acc ++ [(k, v)])%list fuel rest Hnrest Hrest).
    + rewrite <- app_assoc. reflexivity.
    + rewrite map_app. cbn [map fst]. rewrite <- app_assoc. exact Hkeys.
    + cbn in Hfuel; cbn; lia.
Qed.

Lemma distinct_NoDup (l : list string) : distinct l = true -> NoDup l.
Proof.
  induction l as [| k l IH]; cbn; intros H; constructor;
    apply andb_prop in H as [Hk Hl].
  - intros Hin. unfold mem_string in Hk.
    apply negb_true_iff in Hk.
    assert (existsb (String.eqb k) l = true); [| congruence].
    apply existsb_exists. exists k. split; [exact Hin | apply String.eqb_refl].
  - auto.
Qed.

Lemma serialize_reads_back (v : json number) :
  numbers_read_back show_number read_number v ->
  distinct_keys v = true -> reads_back show_number read_number v.
Proof.
  induction v as [| b | n | s | items IH | members IH] using json_induction;
    intros Hnum Hkeys fuel gap indent rest Hgap Hindent Hfuel Hrest;
    (destruct fuel as [| fuel]; [cbn in Hfuel; lia |]).
  - reflexivity.
  - destruct b; reflexivity.
  - inversion Hnum as [| ? ? (Hstart & Hchars & Hread) _]; subst.
    cbn [serialize].
    destruct (show_number n) as [| c r] eqn:Hn; [contradiction |].
    cbn [append]. rewrite (parse_number_S _ _ _ Hstart).
    change (String c (r ++ rest)) with (String c r ++ rest).
    rewrite span_number_literal, Hread; auto.
  - cbn [serialize]. unfold QuoteJSONString. cbn [append parse_value].
    change (N_of_ascii dquote =? 110)%N with false.
    change (N_of_ascii dquote =? 116)%N with false.
    change (N_of_ascii dquote =? 102)%N with false.
    change (N_of_ascii dquote =? 34)%N with true.
    cbv iota. rewrite append_assoc. cbn [append].
    rewrite scan_escape_all. reflexivity.
  - destruct items as [| x items]; [reflexivity |].
    rewrite serialize_array. cbn [append]. rewrite parse_array_S.
    rewrite !append_assoc.
    assert (Hpre : blank (pad gap (indent ++ gap)))
      by (apply blank_pad, blank_append; assumption).
    change ("]" ++ rest) with (String "]" rest).
    pose proof (numbers_of_items _ Hnum) as Hitems.
    assert (Hx : numbers_read_back show_number read_number x)
      by (inversion Hitems; assumption).
    rewrite (skip_ws_blank _ _ Hpre), skip_ws_items, items_not_closing;
      try exact Hx.
    cbn [distinct_keys] in Hkeys. rewrite forallb_forall in Hkeys.
    rewrite parse_elements_join; try assumption.
    + reflexivity.
    + apply blank_append; assumption.
    + apply blank_pad; assumption.
    + apply Forall_forall. intros y Hy.
      rewrite Forall_forall in IH, Hitems. apply IH; auto.
    + cbn [size] in Hfuel. lia.
  - destruct members as [| [k v] members]; [reflexivity |].
    rewrite serialize_object. cbn [append]. rewrite parse_object_S.
    rewrite !append_assoc.
    assert (Hpre : blank (pad gap (indent ++ gap)))
      by (apply blank_pad, blank_append; assumption).
    change ("}" ++ rest) with (String "}" rest).
    pose proof (numbers_of_members _ Hnum) as Hmembers.
    rewrite (skip_ws_blank _ _ Hpre), skip_ws_members.
    assert (Hopen : forall tail,
               expect "}"
                 (join (String "," (pad gap (indent ++ gap)))
                    (map (member_text show_number gap (indent ++ gap))
                         ((k, v) :: members))
                  ++ tail) = None).
    { intros tail. destruct members as [| kv2 members];
        [cbn [map join] | rewrite join_map_cons, !append_assoc];
        rewrite member_text_append; reflexivity. }
    rewrite Hopen.
    cbn [distinct_keys] in Hkeys. apply andb_prop in Hkeys as [Hdistinct Hkeys].
    rewrite forallb_forall in Hkeys.
    rewrite parse_members_join; try assumption.
    + reflexivity.
    + apply blank_append; assumption.
    + apply blank_pad; assumption.
    + apply Forall_forall. intros m Hm.
      rewrite Forall_forall in IH, Hmembers. apply IH; auto.
    + cbn [map app]. apply distinct_NoDup, Hdistinct.
    + cbn [size] in Hfuel. lia.
Qed.

Lemma join_length {A : Type} (f : A -> string) (weight : A -> nat)
    (sep : string) (x : A) (l : list A) :
  1 <= String.length sep ->
  Forall (fun a => weight a <= String.length (f a)) (x :: l) ->
  list_sum (map (fun a => S (weight a)) (x :: l))
  <= S (String.length (join sep (map f (x :: l)))).
Proof.
  intros Hsep. revert x. induction l as [| y l IH]; intros x Hall;
    inversion Hall as [| ? ? Hx Hl]; subst.
  - cbn. lia.
  - rewrite join_map_cons, !length_append.
    specialize (IH y Hl). unfold list_sum in *.
    cbn [map fold_right] in *. lia.
Qed.

Lemma size_le_length (gap indent : string) (v : json number) :
  numbers_read_back show_number read_number v ->
  size v <= String.length (serialize show_number gap indent v).
Proof.
  revert indent.
  induction v as [| b | n | s | items IH | members IH] using json_induction;
    intros indent Hnum.
  - cbn. lia.
  - destruct b; cbn; lia.
  - destruct (serialize_start gap indent (JNumber n) Hnum)
      as (c & r & -> & _).
    cbn. lia.
  - cbn. lia.
  - destruct items as [| x items]; [cbn; lia |].
    rewrite serialize_array. cbn [size append String.length].
    rewrite !length_append. cbn [String.length].
    pose proof (join_length (serialize show_number gap (indent ++ gap)) size
                  (String "," (pad gap (indent ++ gap))) x items) as Hj.
    cbn [String.length] in Hj.
    assert (Hall : Forall (fun a => size a
                     <= String.length (serialize show_number gap (indent ++ gap) a))
                     (x :: items)).
    { pose proof (numbers_of_items _ Hnum) as Hitems.
      rewrite Forall_forall in IH, Hitems. apply Forall_forall.
      intros y Hy. apply IH; auto. }
    specialize (Hj ltac:(lia) Hall). lia.
  - destruct members as [| kv members]; [cbn; lia |].
    rewrite serialize_object. cbn [size append String.length].
    rewrite !length_append. cbn [String.length].
    pose proof (join_length (member_text show_number gap (indent ++ gap))
                  (fun m => size (snd m))
                  (String "," (pad gap (indent ++ gap))) kv members) as Hj.
    cbn [String.length] in Hj.
    assert (Hall : Forall (fun m => size (snd m)
                     <= String.length (member_text show_number gap (indent ++ gap) m))
                     (kv :: members)).
    { pose proof (numbers_of_members _ Hnum) as Hmembers.
      rewrite Forall_forall in IH, Hmembers. apply Forall_forall.
      intros m Hm. unfold member_text. rewrite !length_append.
      pose proof (IH m Hm (indent ++ gap) (Hmembers m Hm)). lia. }
    specialize (Hj ltac:(lia) Hall). lia.
Qed.

(** [JSON.parse(JSON.stringify(v, null, space))] is [v], for a value
    whose numbers read back. *)
Lemma parse_stringify_value (v : json number) (space : nat) :
  numbers_read_back show_number read_number v ->
  distinct_keys v = true ->
  JSON_parse read_number (JSON_stringify show_number v space) = Some v.
Proof.
  intros Hnum Hkeys. unfold JSON_parse, JSON_stringify.
  set (gap := spaces (Nat.min 10 space)).
  pose proof (skip_ws_value gap "" v "" Hnum) as Hskip.
  rewrite append_nil_r in Hskip. rewrite Hskip.
  pose proof (serialize_reads_back v Hnum Hkeys
                (S (String.length (serialize show_number gap "" v)))
                gap "" "") as Hread.
  rewrite append_nil_r in Hread. rewrite Hread; try reflexivity.
  - apply all_chars_spaces.
  - pose proof (size_le_length gap "" v Hnum). lia.
Qed.

(** [JSON.parse(JSON.stringify(v, null, space))] is [v]. *)
Lemma parse_stringify (numbers : number_format show_number read_number)
    (v : json number) (space : nat) :
  distinct_keys v = true ->
  JSON_parse read_number (JSON_stringify show_number v space) = Some v.
Proof.
  apply parse_stringify_value, number_format_everywhere, numbers.
Qed.

End RoundTrip.

(** ** The dispatcher *)

Section DispatcherProperties.

Variable number : Type.
Variable show_number : number -> string.

(** C1. For a tool of the catalog that requires fields, a call without an
    argument object, or with an object that lacks one of the required
    fields, ends in an [InvalidParams] error, and nothing has been called:
    no collaborator appears in the trace and the state of the outside is
    untouched. *)
Theorem missing_required_field_rejected_before_dispatch
    (t : Tool) (arguments : option (obj number)) :
  In t tools ->
  required_fields t <> [] ->
  (arguments = None \/
   exists args field,
     arguments = Some args /\ In field (required_fields t)
     /\ has_own_property field args = false) ->
  forall (W : Type) (env : collaborators number W) (w : W),
  exists message,
    run env (CallTool show_number
          {| params_name := name t; params_arguments := arguments |}) w
    = (Rejected (McpError InvalidParams message), w, []).
Proof.
  intros Hin Hreq Hmiss W env w.
  pose proof (proj1 (Forall_forall _ _) (catalog_routes number) t Hin)
    as Hroute.
  cbv beta in Hroute.
  pose proof (proj1 (Forall_forall _ _) required_not_inherited t Hin)
    as Hproto.
  cbv beta in Hproto.
  rewrite run_CallTool. cbn [params_name params_arguments].
  destruct (route_of number (name t)) as [| substitute fields method | |];
    try contradiction.
  destruct Hroute as [-> Hsub].
  destruct substitute; [exfalso; auto |].
  destruct (validateArgs arguments (required_fields t)) as [a | e] eqn:Hv.
  - exfalso. destruct Hmiss as [-> | (args & field & -> & Hf & Hown)].
    + discriminate Hv.
    + unfold validateArgs in Hv.
      destruct (first_missing args (required_fields t)) eqn:Hfm;
        [discriminate |].
      apply first_missing_none in Hfm.
      rewrite forallb_forall in Hfm. specialize (Hfm field Hf).
      rewrite Forall_forall in Hproto. specialize (Hproto field Hf).
      unfold has_property in Hfm. rewrite Hown, Hproto in Hfm. discriminate.
  - destruct (validateArgs_rejected _ _ _ _ Hv) as [message ->].
    exists message. reflexivity.
Qed.

(** C4. A tool name outside the catalog ends in a [MethodNotFound] error
    naming the tool, with nothing called; it is not an internal error. *)
Theorem unknown_tool_method_not_found
    (n : string) (arguments : option (obj number)) :
  ~ In n names ->
  forall (W : Type) (env : collaborators number W) (w : W),
    run env (CallTool show_number
          {| params_name := n; params_arguments := arguments |}) w
    = (Rejected (McpError MethodNotFound ("Unknown tool: " ++ n)), w, [])
    /\ MethodNotFound <> InternalError.
Proof.
  intros Hn W env w. split; [| discriminate].
  rewrite run_CallTool. cbn [params_name].
  rewrite (unknown_route number n Hn). reflexivity.
Qed.


(** C7. The required-field check looks at key presence only: an argument
    object that owns every required key is validated and handed on as it
    is, whatever its values are; and for every tool of the catalog that
    takes arguments, such an object reaches the handler method unchanged. *)
Theorem validation_checks_presence_only
    (args : obj number) (requiredFields : list string) :
  (forall f, In f requiredFields -> has_own_property f args = true) ->
  validateArgs (Some args) requiredFields = Fulfilled args
  /\ forall t,
       In t tools -> required_fields t = requiredFields ->
       name t <> "get_access_token" -> name t <> "get_available_genres" ->
       exists c,
         call_args c = Some args
         /\ forall (W : Type) (env : collaborators number W) (w : W),
              run env (CallTool show_number
                     {| params_name := name t;
                        params_arguments := Some args |}) w
              = let (o, w1) := handler env c w in
                (finish show_number o, w1, [HandlerInvoked c]).
Proof.
  intros Hown.
  assert (Hv : forall fields,
             (forall f, In f fields -> has_own_property f args = true) ->
             validateArgs (Some args) fields = Fulfilled args).
  { intros fields Hf. unfold validateArgs.
    destruct (first_missing args fields) as [f |] eqn:Hfm; [| reflexivity].
    assert (Hnone : first_missing args fields = None).
    { apply first_missing_none, forallb_forall.
      intros f' Hin. apply own_property_in, Hf, Hin. }
    congruence. }
  split; [apply Hv, Hown |].
  intros t Hin <- Htoken Hgenres.
  pose proof (proj1 (Forall_forall _ _) (catalog_routes number) t Hin)
    as Hroute.
  cbv beta in Hroute.
  destruct (route_of number (name t))
    as [| substitute fields method | |] eqn:Hr; try contradiction.
  - exfalso. apply Htoken, (route_token number), Hr.
  - destruct Hroute as [-> _].
    exists (method args). split.
    + exact (route_handler_args number _ _ _ _ args Hr).
    + intros W env w. rewrite run_CallTool.
      cbn [params_name params_arguments]. rewrite Hr. cbn zeta.
      replace (if substitute then or_empty (Some args) else Some args)
        with (Some args) by (destruct substitute; reflexivity).
      rewrite (Hv _ Hown). reflexivity.
  - exfalso. apply Hgenres, (route_genres number), Hr.
Qed.

End DispatcherProperties.

(** ** The catalog, its limits, and what the dispatcher does with them *)

Section CatalogProperties.

Variable number : Type.
Variable show_number : number -> string.

(** The schema of [get_multiple_artists] declares [maxItems: 50] for
    [ids], and the dispatcher does nothing with it: an argument object that
    has the key [ids], whatever the array holds, is validated and handed
    unchanged to [artistsHandler.getMultipleArtists], and the call ends as
    that handler ends.  What becomes of an array of more than fifty ids is
    decided past the dispatcher. *)
Lemma multiple_artists_ids_forwarded_unchecked (args : obj number) :
  has_own_property "ids" args = true ->
  declared_maxItems "get_multiple_artists" "ids" = Some 50%Z
  /\ validateArgs (Some args) ["ids"] = Fulfilled args
  /\ forall (W : Type) (env : collaborators number W) (w : W),
       run env (CallTool show_number
                  {| params_name := "get_multiple_artists";
                     params_arguments := Some args |}) w
       = let (o, w1) :=
           handler env (artistsHandler_getMultipleArtists number args) w in
         (finish show_number o, w1,
          [HandlerInvoked (artistsHandler_getMultipleArtists number args)]).
Proof.
  intros Hown.
  assert (Hv : validateArgs (Some args) ["ids"] = Fulfilled args).
  { unfold validateArgs. cbn [first_missing].
    rewrite (own_property_in number _ _ Hown). reflexivity. }
  split; [reflexivity |]. split; [exact Hv |].
  intros W env w. rewrite run_CallTool.
  cbn [params_name params_arguments route_of String.eqb Ascii.eqb Bool.eqb].
  cbn zeta. rewrite Hv. reflexivity.
Qed.

(** C9. The catalog lists fifteen tools, with these required fields; for
    each of them the dispatcher checks exactly the fields the catalog
    requires (a call is dispatched when they are all [in] the argument
    object, and ends in [InvalidParams] with nothing called otherwise);
    and the names the dispatcher does not know are exactly those outside
    the catalog. *)
Theorem catalog_and_dispatcher_agree :
  map (fun t => (name t, required_fields t)) tools
  = [ ("get_access_token", []);
      ("search", ["query"; "type"]);
      ("get_artist", ["id"]);
      ("get_multiple_artists", ["ids"]);
      ("get_artist_top_tracks", ["id"]);
      ("get_artist_related_artists", ["id"]);
      ("get_artist_albums", ["id"]);
      ("get_album", ["id"]);
      ("get_album_tracks", ["id"]);
      ("get_multiple_albums", ["ids"]);
      ("get_track", ["id"]);
      ("get_available_genres", []);
      ("get_new_releases", []);
      ("get_recommendations", []);
      ("get_audiobook", ["id"]) ]
  /\ List.length tools = 15
  /\ Forall (fun t =>
       forall (args : obj number) (W : Type)
              (env : collaborators number W) (w : W),
         if forallb (fun f => has_property f args) (required_fields t)
         then exists c,
                snd (run env (CallTool show_number
                                {| params_name := name t;
                                   params_arguments := Some args |}) w) = [c]
         else exists message,
                run env (CallTool show_number
                           {| params_name := name t;
                              params_arguments := Some args |}) w
                = (Rejected (McpError InvalidParams message), w, [])) tools
  /\ forall n,
       ~ In n names <->
       (forall arguments (W : Type) (env : collaborators number W) (w : W),
          run env (CallTool show_number
                     {| params_name := n; params_arguments := arguments |}) w
          = (Rejected (McpError MethodNotFound ("Unknown tool: " ++ n)), w, [])).
Proof.
  split; [reflexivity |]. split; [reflexivity |]. split.
  - apply Forall_forall. intros t Hin args W env w.
    pose proof (proj1 (Forall_forall _ _) (catalog_routes number) t Hin)
    as Hroute.
    cbv beta in Hroute.
    rewrite run_CallTool. cbn [params_name params_arguments].
    destruct (route_of number (name t)) as [| substitute fields method | |];
      try contradiction.
    + rewrite Hroute. cbn [forallb].
      destruct (authManager_getAccessToken env w). eexists. reflexivity.
    + destruct Hroute as [-> Hsub]. cbn zeta.
      replace (if substitute then or_empty (Some args) else Some args)
        with (Some args) by (destruct substitute; reflexivity).
      unfold validateArgs.
      destruct (first_missing args (required_fields t)) as [f |] eqn:Hfm.
      * destruct (forallb _ _) eqn:Hall.
        -- apply first_missing_none in Hall. congruence.
        -- eexists. reflexivity.
      * apply first_missing_none in Hfm. rewrite Hfm.
        destruct (handler env (method args) w). eexists. reflexivity.
    + rewrite Hroute. cbn [forallb].
      destruct (handler env _ w). eexists. reflexivity.
  - intros n. split.
    + intros Hn arguments W env w. rewrite run_CallTool. cbn [params_name].
      rewrite (unknown_route number n Hn). reflexivity.
    + intros Hrun Hin. specialize (Hrun None unit (idle number) tt).
      cbn in Hin.
      repeat (destruct Hin as [<- | Hin]; [discriminate Hrun |]).
      contradiction.
Qed.

(** C10. For the four tools that require no field, a call without an
    argument object gets past validation: [get_access_token] and
    [get_available_genres] do not look at the arguments, [get_new_releases]
    and [get_recommendations] validate [{}] in their place and hand it to
    the handler.  In all four the one collaborator is called and the call
    ends as the collaborator ends. *)
Theorem absent_arguments_accepted_without_required_fields
    (W : Type) (env : collaborators number W) (w : W) :
  run env (CallTool show_number
             {| params_name := "get_access_token";
                params_arguments := None |}) w
  = (let (o, w1) := authManager_getAccessToken env w in
     (finish_token o, w1, [TokenRequested]))
  /\ run env (CallTool show_number
                {| params_name := "get_available_genres";
                   params_arguments := None |}) w
     = (let (o, w1) :=
          handler env (tracksHandler_getAvailableGenres number) w in
        (finish show_number o, w1,
         [HandlerInvoked (tracksHandler_getAvailableGenres number)]))
  /\ validateArgs (number := number) (or_empty None) [] = Fulfilled []
  /\ run env (CallTool show_number
                {| params_name := "get_new_releases";
                   params_arguments := None |}) w
     = (let (o, w1) :=
          handler env (albumsHandler_getNewReleases number []) w in
        (finish show_number o, w1,
         [HandlerInvoked (albumsHandler_getNewReleases number [])]))
  /\ run env (CallTool show_number
                {| params_name := "get_recommendations";
                   params_arguments := None |}) w
     = (let (o, w1) :=
          handler env (tracksHandler_getRecommendations number []) w in
        (finish show_number o, w1,
         [HandlerInvoked (tracksHandler_getRecommendations number [])])).
Proof.
  repeat split; rewrite ?run_CallTool; reflexivity.
Qed.

End CatalogProperties.

(** ** The Token Manager behind [get_access_token] *)

Section TokenManagerProperties.

Variable number : Type.
Variable show_number : number -> string.
Variable credential : Credential.
Variable endpoint : Credential -> nat -> ExchangeReply.
Variable safety_margin : Z.
Variable handlers :
  HandlerCall number -> TokenStore -> outcome (json number) * TokenStore.

Hypothesis margin_not_negative : (0 <= safety_margin)%Z.

(** An exchange is one call received by the endpoint, whatever it answers. *)
Lemma exchange_logged (now : Z) (s : TokenStore) :
  exchanges (snd (exchange credential endpoint now s)) = now :: exchanges s.
Proof.
  unfold exchange.
  destruct (endpoint credential (length (exchanges s))); reflexivity.
Qed.

Lemma exchange_fulfilled (now : Z) (s s' : TokenStore) (t : AccessToken) :
  exchange credential endpoint now s = (Fulfilled t, s') ->
  s' = {| held := Some t; exchanges := now :: exchanges s |}
  /\ exists expires_in,
       endpoint credential (length (exchanges s))
       = Granted (value t) (token_type t) expires_in
       /\ expiry t = declared_expiry now expires_in.
Proof.
  unfold exchange.
  destruct (endpoint credential (length (exchanges s)))
    as [v kind ttl | status message];
    intros H; inversion H; subst; cbn.
  split; [reflexivity |]. exists ttl. split; reflexivity.
Qed.

Lemma exchange_rejected (now : Z) (s s' : TokenStore) (e : exn) :
  exchange credential endpoint now s = (Rejected e, s') ->
  s' = {| held := held s; exchanges := now :: exchanges s |}
  /\ exists status message,
       endpoint credential (length (exchanges s)) = Refused status message.
Proof.
  unfold exchange.
  destruct (endpoint credential (length (exchanges s)))
    as [v kind ttl | status message];
    intros H; inversion H; subst.
  split; [reflexivity |]. eauto.
Qed.

(** The token a granted exchange stores comes from that exchange. *)
Lemma granted_now (now : Z) (s : TokenStore) (t : AccessToken)
    (expires_in : N) :
  endpoint credential (length (exchanges s))
  = Granted (value t) (token_type t) expires_in ->
  granted credential endpoint
    {| held := Some t; exchanges := now :: exchanges s |} t now expires_in.
Proof.
  intros Hreply. exists [], (exchanges s). cbn [exchanges app].
  split; [reflexivity |]. split; [exact Hreply |].
  intros n Hn. cbn [length] in Hn. lia.
Qed.

(** A refused exchange leaves the held token with the exchange it came
    from. *)
Lemma granted_refused (now : Z) (s : TokenStore) (t : AccessToken)
    (instant : Z) (expires_in : N) (status message : string) :
  endpoint credential (length (exchanges s)) = Refused status message ->
  granted credential endpoint s t instant expires_in ->
  granted credential endpoint
    {| held := held s; exchanges := now :: exchanges s |} t instant expires_in.
Proof.
  intros Hreply (later & earlier & Hlog & Hgrant & Hsince).
  exists (now :: later), earlier. cbn [exchanges].
  split; [rewrite Hlog; reflexivity |]. split; [exact Hgrant |].
  intros n Hn. cbn [length] in Hn.
  destruct (Nat.eq_dec n (length (exchanges s))) as [-> | Hne].
  - eauto.
  - apply Hsince. lia.
Qed.

(** In every store the process can be in, the held token comes from an
    exchange the endpoint granted, and its expiry timestamp is the instant
    the endpoint declared: the instant of that exchange plus the declared
    lifetime. *)
Lemma held_token_granted (s : TokenStore) :
  reachable credential endpoint safety_margin s ->
  forall t,
    held s = Some t ->
    exists instant expires_in,
      granted credential endpoint s t instant expires_in
      /\ expiry t = declared_expiry instant expires_in.
Proof.
  induction 1 as [| now s Hreach IH]; [discriminate |].
  assert (Hexchange :
            forall t,
              held (snd (exchange credential endpoint now s)) = Some t ->
              exists instant expires_in,
                granted credential endpoint
                  (snd (exchange credential endpoint now s)) t
                  instant expires_in
                /\ expiry t = declared_expiry instant expires_in).
  { intros t.
    destruct (exchange credential endpoint now s) as [[t1 | e] s1] eqn:Hx.
    - destruct (exchange_fulfilled _ _ _ _ Hx) as [-> (ttl & Hreply & Hexp)].
      cbn. intros Ht. inversion Ht; subst t1.
      exists now, ttl. split; [apply granted_now, Hreply | exact Hexp].
    - destruct (exchange_rejected _ _ _ _ Hx)
        as [-> (status & message & Hreply)].
      cbn. intros Ht.
      destruct (IH t Ht) as (instant & ttl & Hgrant & Hexp).
      exists instant, ttl. split; [| exact Hexp].
      eapply granted_refused; eassumption. }
  unfold getValidToken.
  destruct (held s) as [t0 |] eqn:Hheld; [| exact Hexchange].
  destruct (expired safety_margin now t0); [exact Hexchange |].
  cbn. intros t Ht. apply IH. congruence.
Qed.

(** What a call that returns a token has done. *)
Lemma getValidToken_fulfilled (now : Z) (s s' : TokenStore)
    (t : AccessToken) :
  reachable credential endpoint safety_margin s ->
  getValidToken credential endpoint safety_margin now s = (Fulfilled t, s') ->
  held s' = Some t
  /\ exists instant expires_in,
       granted credential endpoint s' t instant expires_in
       /\ expiry t = declared_expiry instant expires_in
       /\ (now <= declared_expiry instant expires_in)%Z
       /\ ((instant = now
            /\ exchanges s' = now :: exchanges s
            /\ (held s = None
                \/ exists t0 instant0 expires_in0,
                     held s = Some t0
                     /\ granted credential endpoint s t0 instant0 expires_in0
                     /\ (window_end safety_margin instant0 expires_in0
                         < now)%Z))
           \/ (s' = s
               /\ (now <= window_end safety_margin instant expires_in)%Z)).
Proof.
  intros Hreach Hget.
  assert (Hexchange :
            exchange credential endpoint now s = (Fulfilled t, s') ->
            (held s = None
             \/ exists t0 instant0 expires_in0,
                  held s = Some t0
                  /\ granted credential endpoint s t0 instant0 expires_in0
                  /\ (window_end safety_margin instant0 expires_in0
                      < now)%Z) ->
            held s' = Some t
            /\ exists instant expires_in,
                 granted credential endpoint s' t instant expires_in
                 /\ expiry t = declared_expiry instant expires_in
                 /\ (now <= declared_expiry instant expires_in)%Z
                 /\ ((instant = now
                      /\ exchanges s' = now :: exchanges s
                      /\ (held s = None
                          \/ exists t0 instant0 expires_in0,
                               held s = Some t0
                               /\ granted credential endpoint s t0
                                    instant0 expires_in0
                               /\ (window_end safety_margin instant0
                                     expires_in0 < now)%Z))
                     \/ (s' = s
                         /\ (now <= window_end safety_margin instant
                                      expires_in)%Z))).
  { intros Hx Hbefore.
    destruct (exchange_fulfilled _ _ _ _ Hx) as [-> (ttl & Hreply & Hexp)].
    split; [reflexivity |]. exists now, ttl.
    split; [apply granted_now, Hreply |]. split; [exact Hexp |].
    split; [unfold declared_expiry; lia |].
    left. split; [reflexivity |]. split; [reflexivity | exact Hbefore]. }
  unfold getValidToken in Hget.
  destruct (held s) as [t0 |] eqn:Hheld.
  - destruct (held_token_granted s Hreach t0 Hheld)
      as (instant0 & ttl0 & Hgrant0 & Hexp0).
    unfold expired in Hget.
    destruct (expiry t0 - safety_margin <? now)%Z eqn:Hcheck.
    + apply Hexchange; [exact Hget |].
      right. exists t0, instant0, ttl0.
      split; [reflexivity |]. split; [exact Hgrant0 |].
      apply Z.ltb_lt in Hcheck. unfold window_end. lia.
    + inversion Hget; subst t0 s'. split; [exact Hheld |].
      exists instant0, ttl0. apply Z.ltb_ge in Hcheck.
      split; [exact Hgrant0 |]. split; [exact Hexp0 |].
      split; [lia |]. right. split; [reflexivity |].
      unfold window_end. lia.
  - apply Hexchange; [exact Hget | now left].
Qed.

(** Inside the validity window the held token is handed out and nothing
    changes; past it, one exchange is made. *)
Lemma getValidToken_held (now : Z) (s : TokenStore) (t : AccessToken)
    (instant : Z) (expires_in : N) :
  held s = Some t ->
  expiry t = declared_expiry instant expires_in ->
  ((now <= window_end safety_margin instant expires_in)%Z ->
   getValidToken credential endpoint safety_margin now s = (Fulfilled t, s))
  /\ ((window_end safety_margin instant expires_in < now)%Z ->
      getValidToken credential endpoint safety_margin now s
      = exchange credential endpoint now s).
Proof.
  intros Hheld Hexp. unfold getValidToken, expired, window_end.
  rewrite Hheld, Hexp. split; intros Hnow.
  - replace (_ <? now)%Z with false; [reflexivity |].
    symmetry. apply Z.ltb_ge. lia.
  - replace (_ <? now)%Z with true; [reflexivity |].
    symmetry. apply Z.ltb_lt. lia.
Qed.

Lemma get_access_token_at_eq (now : Z) (arguments : option (obj number))
    (s : TokenStore) :
  get_access_token_at show_number credential endpoint safety_margin handlers
    now arguments s =
  let (o, s1) := getAccessToken credential endpoint safety_margin now s in
  (finish_token o, s1, [TokenRequested]).
Proof. unfold get_access_token_at. rewrite run_CallTool. reflexivity. Qed.

(** C2. In any store the process can be in, a token handed out by the
    Token Manager is the one held after the call; it comes from an
    exchange the authorization endpoint granted, its expiry timestamp is
    the instant that exchange declared (the instant of the exchange plus
    the declared lifetime), and the call is not past that instant.  The
    expiry is checked with the margin: either the token was obtained by
    this very call, nothing being held or the held token being past its
    declared expiry less the margin (declared expiry not necessarily
    reached); or it is the held token, the store is untouched and the call
    is no later than the declared expiry less the margin.  The tool
    [get_access_token] returns the value of that token as its text. *)
Theorem valid_token_never_expired
    (now : Z) (s s' : TokenStore) (v : string) :
  reachable credential endpoint safety_margin s ->
  getAccessToken credential endpoint safety_margin now s = (Fulfilled v, s') ->
  exists t instant expires_in,
    getValidToken credential endpoint safety_margin now s = (Fulfilled t, s')
    /\ value t = v
    /\ (forall arguments,
          get_access_token_at show_number credential endpoint safety_margin
            handlers now arguments s
          = (Fulfilled (text_content v), s', [TokenRequested]))
    /\ held s' = Some t
    /\ granted credential endpoint s' t instant expires_in
    /\ expiry t = declared_expiry instant expires_in
    /\ (now <= declared_expiry instant expires_in)%Z
    /\ ((instant = now
         /\ exchanges s' = now :: exchanges s
         /\ (held s = None
             \/ exists t0 instant0 expires_in0,
                  held s = Some t0
                  /\ granted credential endpoint s t0 instant0 expires_in0
                  /\ (window_end safety_margin instant0 expires_in0 < now)%Z))
        \/ (s' = s
            /\ (now <= window_end safety_margin instant expires_in)%Z)).
Proof.
  intros Hreach Hget.
  assert (Hv : exists t,
             getValidToken credential endpoint safety_margin now s
             = (Fulfilled t, s') /\ value t = v).
  { unfold getAccessToken in Hget.
    destruct (getValidToken credential endpoint safety_margin now s)
      as [[t | e] s1]; inversion Hget; subst. eauto. }
  destruct Hv as (t & Hvalid & Hvalue).
  destruct (getValidToken_fulfilled now s s' t Hreach Hvalid)
    as (Hheld & instant & ttl & Hgrant & Hexp & Hnow & Hhow).
  exists t, instant, ttl.
  split; [exact Hvalid |]. split; [exact Hvalue |].
  split.
  { intros arguments. rewrite get_access_token_at_eq, Hget. reflexivity. }
  repeat (split; [assumption |]). exact Hhow.
Qed.


End TokenManagerProperties.

(** ** What a successful call returns *)

Section Results.

Variable number : Type.
Variable show_number : number -> string.
Variable read_number : string -> option number.


End Results.

(** ** Integer-valued numbers read back *)

Lemma uint_text_number_chars (d : Decimal.uint) :
  all_chars is_number_char (NilEmpty.string_of_uint d) = true.
Proof. induction d; cbn; auto. Qed.

Lemma show_integer_number_chars (z : Z) :
  all_chars is_number_char (show_integer z) = true.
Proof.
  assert (H : forall d,
             all_chars is_number_char (NilZero.string_of_uint d) = true).
  { intros d. unfold NilZero.string_of_uint.
    destruct d; cbv iota; try reflexivity; apply uint_text_number_chars. }
  unfold show_integer, NilZero.string_of_int.
  destruct (Z.to_int z) as [d | d]; [apply H | cbn [all_chars]; apply H].
Qed.

Lemma show_integer_start (z : Z) :
  match show_integer z with
  | String c _ => is_number_start c = true
  | EmptyString => False
  end.
Proof.
  unfold show_integer, NilZero.string_of_int, NilZero.string_of_uint.
  destruct (Z.to_int z) as [d | d]; destruct d; reflexivity.
Qed.

Lemma to_int_proper (z : Z) :
  Z.to_int z <> Decimal.Pos Decimal.Nil /\ Z.to_int z <> Decimal.Neg Decimal.Nil.
Proof.
  destruct z as [| p | p]; cbn; split; try discriminate;
    intros H; inversion H as [Hp];
    exact (DecimalPos.Unsigned.to_uint_nonnil p Hp).
Qed.

Lemma read_show_integer (z : Z) : read_integer (show_integer z) = Some z.
Proof.
  unfold read_integer. unfold show_integer at 1.
  destruct (to_int_proper z) as [Hpos Hneg].
  rewrite (NilZero.isi _ Hpos Hneg), DecimalZ.of_to, String.eqb_refl.
  reflexivity.
Qed.

Lemma integer_format : number_format show_integer read_integer.
Proof.
  repeat split.
  - exact show_integer_start.
  - exact show_integer_number_chars.
  - exact read_show_integer.
Qed.

(** ** The properties at work *)

(** A [search] call without [type] stops at validation. *)
Lemma search_without_type_rejected :
  exists message,
    run (answering (Fulfilled "BQDtoken") (fun _ => Fulfilled an_artist))
        (CallTool show_integer
           {| params_name := "search";
              params_arguments := Some [("query", JString "pitbull")] |}) 0
    = (Rejected (McpError InvalidParams message), 0, []).
Proof.
  apply (missing_required_field_rejected_before_dispatch Z show_integer
           (tool_named "search") (Some [("query", JString "pitbull")])).
  - cbn. tauto.
  - discriminate.
  - right. exists [("query", JString "pitbull")], "type".
    repeat split. cbn. tauto.
Defined.

(** [frobnicate] is not a tool. *)
Lemma frobnicate_method_not_found :
  run (answering (Fulfilled "BQDtoken") (fun _ => Fulfilled an_artist))
      (CallTool show_integer
         {| params_name := "frobnicate"; params_arguments := Some [] |}) 0
  = (Rejected (McpError MethodNotFound "Unknown tool: frobnicate"), 0, [])
  /\ MethodNotFound <> InternalError.
Proof.
  apply (unknown_tool_method_not_found Z show_integer "frobnicate" (Some [])).
  cbn. intros H. repeat (destruct H as [H | H]; [discriminate H |]). exact H.
Defined.



(** A [search] whose [limit] is the string "banana" passes validation and
    reaches [tracksHandler.search] as it is. *)
Lemma banana_limit_reaches_handler :
  validateArgs (Some banana_search) ["query"; "type"] = Fulfilled banana_search
  /\ forall t,
       In t tools -> required_fields t = ["query"; "type"] ->
       name t <> "get_access_token" -> name t <> "get_available_genres" ->
       exists c,
         call_args c = Some banana_search
         /\ forall (W : Type) (env : collaborators Z W) (w : W),
              run env (CallTool show_integer
                         {| params_name := name t;
                            params_arguments := Some banana_search |}) w
              = let (o, w1) := handler env c w in
                (finish show_integer o, w1, [HandlerInvoked c]).
Proof.
  apply (validation_checks_presence_only Z show_integer banana_search
           ["query"; "type"]).
  intros f [<- | [<- | []]]; reflexivity.
Defined.

Lemma fifty_one_ids_forwarded :
  declared_maxItems "get_multiple_artists" "ids" = Some 50%Z
  /\ validateArgs (Some fifty_one_ids) ["ids"] = Fulfilled fifty_one_ids
  /\ forall (W : Type) (env : collaborators Z W) (w : W),
       run env (CallTool show_integer
                  {| params_name := "get_multiple_artists";
                     params_arguments := Some fifty_one_ids |}) w
       = let (o, w1) :=
           handler env (artistsHandler_getMultipleArtists Z fifty_one_ids) w in
         (finish show_integer o, w1,
          [HandlerInvoked (artistsHandler_getMultipleArtists Z fifty_one_ids)]).
Proof.
  apply (multiple_artists_ids_forwarded_unchecked Z show_integer fifty_one_ids).
  reflexivity.
Defined.

(** The same call of fifty-one ids succeeds over a handler that answers
    whatever it is given, and fails over one that refuses more than fifty
    ids: the dispatcher makes no difference between the two. *)
Example fifty_one_ids_as_the_handler_decides :
  ids_length fifty_one_ids = Some 51
  /\ run (answering (Fulfilled "BQDtoken") (fun _ => Fulfilled an_artist))
         (CallTool show_integer
            {| params_name := "get_multiple_artists";
               params_arguments := Some fifty_one_ids |}) 0
     = (Fulfilled (text_content (JSON_stringify show_integer an_artist 2)), 1,
        [HandlerInvoked (artistsHandler_getMultipleArtists Z fifty_one_ids)])
  /\ run (answering (Fulfilled "BQDtoken") at_most_fifty_ids)
         (CallTool show_integer
            {| params_name := "get_multiple_artists";
               params_arguments := Some fifty_one_ids |}) 0
     = (Rejected
          (McpError InternalError
             "Unexpected error: Error: Request failed with status code 400"),
        1,
        [HandlerInvoked (artistsHandler_getMultipleArtists Z fifty_one_ids)]).
Proof. repeat split; vm_compute; reflexivity. Qed.



(** The first call of a process, at instant 0, makes the first exchange
    and stores a token that expires at 3600, the instant declared. *)
Example first_call_exchanges :
  getValidToken the_credential hourly 60 0
    (initial_store) = (Fulfilled first_token, first_store).
Proof. reflexivity. Qed.

(** With a margin of 60, a call at 3570 finds the held token within the
    margin of its expiry, 3600, and makes a second exchange; a call at 3540
    does not. *)
Example call_inside_margin_exchanges :
  getValidToken the_credential hourly 60 3570 first_store
  = (Fulfilled {| value := "BQD-later"; expiry := 7170;
                  token_type := "Bearer" |},
     {| held := Some {| value := "BQD-later"; expiry := 7170;
                        token_type := "Bearer" |};
        exchanges := [3570; 0]%Z |})
  /\ getValidToken the_credential hourly 60 3540 first_store
     = (Fulfilled first_token, first_store).
Proof. split; reflexivity. Qed.

(** A call at instant 100 on the store that holds the first token: the
    expiry check passes and the held token is handed out. *)
Lemma held_token_served_inside_window :
  exists t instant expires_in,
    getValidToken the_credential hourly 60 100 first_store
    = (Fulfilled t, first_store)
    /\ value t = "BQD-first"
    /\ (forall arguments,
          get_access_token_at show_integer the_credential hourly 60
            no_handlers 100 arguments first_store
          = (Fulfilled (text_content "BQD-first"), first_store,
             [TokenRequested]))
    /\ held first_store = Some t
    /\ granted the_credential hourly first_store t instant expires_in
    /\ expiry t = declared_expiry instant expires_in
    /\ (100 <= declared_expiry instant expires_in)%Z
    /\ ((instant = 100%Z
         /\ exchanges first_store = 100%Z :: exchanges first_store
         /\ (held first_store = None
             \/ exists t0 instant0 expires_in0,
                  held first_store = Some t0
                  /\ granted the_credential hourly first_store t0 instant0
                       expires_in0
                  /\ (window_end 60 instant0 expires_in0 < 100)%Z))
        \/ (first_store = first_store
            /\ (100 <= window_end 60 instant expires_in)%Z)).
Proof.
  refine (valid_token_never_expired Z show_integer the_credential hourly 60
            no_handlers _ 100 first_store first_store "BQD-first" _ _).
  - lia.
  - exact (reachable_call the_credential hourly 60 0 initial_store
             (reachable_initial the_credential hourly 60)).
  - reflexivity.
Defined.


(** * Further properties of the dispatcher *)

Section FurtherProperties.

Variable number : Type.
Variable show_number : number -> string.
Variable read_number : string -> option number.

Ltac each_name_test :=
  repeat match goal with
  | |- context [String.eqb ?a ?b] => destruct (String.eqb_spec a b)
  end.

(** The method a [case] calls does not depend on the arguments. *)
Lemma route_method_fixed (n : string) (substitute : bool)
    (fields : list string) (method : obj number -> HandlerCall number)
    (a : obj number) :
  route_of number n = ToHandler substitute fields method ->
  tool_of_method (method_of (method a)) = n
  /\ forall b, method_of (method b) = method_of (method a).
Proof.
  unfold route_of.
  each_name_test; intros H; inversion H; subst; split; reflexivity.
Qed.

Lemma first_missing_some (args : obj number) (requiredFields : list string)
    (field : string) :
  first_missing args requiredFields = Some field <->
  exists before after,
    requiredFields = (before ++ field :: after)%list
    /\ (forall f, In f before -> has_property f args = true)
    /\ has_property field args = false.
Proof.
  induction requiredFields as [| g rest IH]; cbn.
  - split; [discriminate |].
    intros (before & after & Heq & _). destruct before; discriminate Heq.
  - destruct (has_property g args) eqn:Hg; cbn.
    + rewrite IH. split.
      * intros (before & after & -> & Hbefore & Hfield).
        exists (g :: before), after.
        split; [reflexivity |]. split; [| exact Hfield].
        intros f [<- | Hf]; auto.
      * intros (before & after & Heq & Hbefore & Hfield).
        destruct before as [| b before]; cbn in Heq; inversion Heq; subst.
        -- congruence.
        -- exists before, after.
           split; [reflexivity |]. split; [| exact Hfield].
           intros f Hf. apply Hbefore. now right.
    + split.
      * intros H. inversion H; subst. exists [], rest.
        split; [reflexivity |]. split; [intros f [] | exact Hg].
      * intros (before & after & Heq & Hbefore & Hfield).
        destruct before as [| b before]; cbn in Heq; inversion Heq; subst.
        -- reflexivity.
        -- rewrite Hbefore in Hg; [discriminate | now left].
Qed.

(** X1. [validateArgs] returns exactly when the argument object is there
    and every required field is [in] it, own or inherited; what it returns
    is that object. *)
Theorem validateArgs_fulfilled_iff
    (arguments : option (obj number)) (requiredFields : list string)
    (args : obj number) :
  validateArgs arguments requiredFields = Fulfilled args <->
  arguments = Some args
  /\ forall f, In f requiredFields -> has_property f args = true.
Proof.
  unfold validateArgs. destruct arguments as [a |].
  - destruct (first_missing a requiredFields) as [f |] eqn:Hfm.
    + split; [discriminate |]. intros [Ha Hall]. inversion Ha; subst.
      assert (Hnone : first_missing args requiredFields = None)
        by (apply first_missing_none, forallb_forall; exact Hall).
      congruence.
    + apply first_missing_none in Hfm. rewrite forallb_forall in Hfm.
      split.
      * intros H. inversion H; subst. auto.
      * intros [Ha _]. inversion Ha; subst. reflexivity.
  - split; [discriminate | intros [H _]; discriminate H].
Qed.

(** X2. When [validateArgs] throws on an argument object, the message
    names the first required field, in the order given, that is not [in]
    the object: the fields before it are all there. *)
Theorem validateArgs_names_first_missing
    (args : obj number) (requiredFields : list string) (e : exn) :
  validateArgs (Some args) requiredFields = Rejected e <->
  exists before field after,
    requiredFields = (before ++ field :: after)%list
    /\ (forall f, In f before -> has_property f args = true)
    /\ has_property field args = false
    /\ e = McpError InvalidParams ("Missing required field: " ++ field).
Proof.
  unfold validateArgs.
  destruct (first_missing args requiredFields) as [f |] eqn:Hfm.
  - apply first_missing_some in Hfm as (before & after & Heq & Hb & Hf).
    split.
    + intros H. inversion H; subst. exists before, f, after. auto.
    + intros (before' & field & after' & Heq' & Hb' & Hf' & ->).
      assert (Hsame : first_missing args requiredFields = Some field)
        by (apply first_missing_some; eauto).
      assert (Hf0 : first_missing args requiredFields = Some f)
        by (apply first_missing_some; eauto).
      congruence.
  - split; [discriminate |].
    intros (before & field & after & Heq & Hb & Hf & _).
    assert (Hsome : first_missing args requiredFields = Some field)
      by (apply first_missing_some; eauto).
    congruence.
Qed.

Lemma validateArgs_more_keys (a b : obj number) (requiredFields : list string) :
  (forall k, has_own_property k a = true -> has_own_property k b = true) ->
  validateArgs (Some a) requiredFields = Fulfilled a ->
  validateArgs (Some b) requiredFields = Fulfilled b.
Proof.
  intros Hkeys Ha. unfold validateArgs in *.
  destruct (first_missing a requiredFields) eqn:Hfa; [discriminate |].
  apply first_missing_none in Hfa. rewrite forallb_forall in Hfa.
  assert (Hfb : first_missing b requiredFields = None).
  { apply first_missing_none, forallb_forall. intros f Hf.
    specialize (Hfa f Hf). unfold has_property in *.
    apply orb_true_iff in Hfa as [Hown | Hproto].
    - rewrite (Hkeys f Hown). reflexivity.
    - rewrite Hproto. apply orb_true_r. }
  rewrite Hfb. reflexivity.
Qed.

(** X3. Fields the schema does not declare are not rejected: when a call
    with an argument object reaches a handler method, the same call with
    an object that has those keys and more reaches the same method, with
    the larger object as it is. *)
Theorem undeclared_fields_accepted
    (n : string) (a b : obj number) (c : HandlerCall number)
    (W : Type) (env : collaborators number W) (w : W) :
  (forall k, has_own_property k a = true -> has_own_property k b = true) ->
  snd (run env (CallTool show_number
                  {| params_name := n; params_arguments := Some a |}) w)
  = [HandlerInvoked c] ->
  exists c',
    snd (run env (CallTool show_number
                    {| params_name := n; params_arguments := Some b |}) w)
    = [HandlerInvoked c']
    /\ method_of c' = method_of c
    /\ (call_args c = Some a -> call_args c' = Some b).
Proof.
  intros Hkeys. rewrite !run_CallTool. cbn [params_name params_arguments].
  destruct (route_of number n) as [| substitute fields method | |] eqn:Hr.
  - destruct (authManager_getAccessToken env w). discriminate.
  - cbn zeta.
    replace (if substitute then or_empty (Some a) else Some a)
      with (Some a) by (destruct substitute; reflexivity).
    replace (if substitute then or_empty (Some b) else Some b)
      with (Some b) by (destruct substitute; reflexivity).
    destruct (validateArgs (Some a) fields) as [a' | e] eqn:Hva;
      [| discriminate].
    assert (a' = a) by (apply validateArgs_fulfilled_iff in Hva as [H _];
                        congruence).
    subst a'. rewrite (validateArgs_more_keys a b fields Hkeys Hva).
    destruct (handler env (method a) w) as [oa wa].
    destruct (handler env (method b) w) as [ob wb].
    cbn. intros H. inversion H; subst.
    exists (method b). split; [reflexivity |]. split.
    + apply (route_method_fixed n _ _ _ a Hr).
    + intros _. exact (route_handler_args number _ _ _ _ b Hr).
  - destruct (handler env _ w) as [o w1]. cbn. intros H. inversion H; subst.
    exists (tracksHandler_getAvailableGenres number).
    repeat split. discriminate.
  - discriminate.
Qed.

(** X4. A tool call makes at most one collaborator call: there is no
    retry and no second request.  When it makes none, the outside is left
    as it was and the call has failed with [InvalidParams] or
    [MethodNotFound]; a call that succeeds has made exactly one. *)
Theorem at_most_one_collaborator_call
    (W : Type) (env : collaborators number W)
    (req : CallToolRequest number) (w : W) :
  let '(o, w', tr) := run env (CallTool show_number req) w in
  List.length tr <= 1
  /\ (tr = [] ->
      w' = w
      /\ exists code message,
           o = Rejected (McpError code message)
           /\ (code = InvalidParams \/ code = MethodNotFound))
  /\ (forall result, o = Fulfilled result -> List.length tr = 1).
Proof.
  rewrite run_CallTool.
  destruct (route_of number (params_name req))
    as [| substitute fields method | |].
  - destruct (authManager_getAccessToken env w) as [o w1].
    cbn. repeat split; auto; discriminate.
  - cbn zeta. destruct (validateArgs _ fields) as [args | e] eqn:Hv.
    + destruct (handler env (method args) w) as [o w1].
      cbn. repeat split; auto; discriminate.
    + destruct (validateArgs_rejected _ _ _ _ Hv) as [message ->].
      cbn. repeat split; auto; try discriminate.
      exists InvalidParams, message. auto.
  - destruct (handler env _ w) as [o w1].
    cbn. repeat split; auto; discriminate.
  - cbn. repeat split; auto; try discriminate.
    eexists _, _. split; [reflexivity | auto].
Qed.

(** X5. The failure of the collaborator called is never swallowed, and
    nothing else makes the call fail: the tool call is rejected exactly
    when that collaborator call was, with the thrown [McpError] itself or
    with an [InternalError] whose message ends with the text of what was
    thrown; otherwise it is fulfilled. *)
Theorem collaborator_failure_surfaces
    (W : Type) (env : collaborators number W)
    (req : CallToolRequest number) (w w' : W)
    (o : outcome CallToolResult) (eff : effect number) :
  run env (CallTool show_number req) w = (o, w', [eff]) ->
  match collaborator_failure env w eff with
  | Some thrown =>
      exists code message,
        o = Rejected (McpError code message)
        /\ (thrown = McpError code message
            \/ exists rendering,
                 thrown = OtherError rendering
                 /\ code = InternalError
                 /\ message = "Unexpected error: " ++ rendering)
  | None => exists result, o = Fulfilled result
  end.
Proof.
  rewrite run_CallTool.
  assert (Hfinish : forall oc : outcome (json number),
             match (match oc with
                    | Rejected thrown => Some thrown
                    | Fulfilled _ => None
                    end) with
             | Some thrown =>
                 exists code message,
                   finish show_number oc = Rejected (McpError code message)
                   /\ (thrown = McpError code message
                       \/ exists rendering,
                            thrown = OtherError rendering
                            /\ code = InternalError
                            /\ message = "Unexpected error: " ++ rendering)
             | None => exists result, finish show_number oc = Fulfilled result
             end).
  { intros [body | [code message | rendering]]; cbn; eauto 8. }
  destruct (route_of number (params_name req))
    as [| substitute fields method | |].
  - destruct (authManager_getAccessToken env w) as [oc w1] eqn:Hcall.
    cbn. intros H. inversion H; subst. cbn. rewrite Hcall. cbn.
    destruct oc as [token | [code message | rendering]]; cbn; eauto 8.
  - cbn zeta. destruct (validateArgs _ fields) as [args | e];
      [| discriminate].
    destruct (handler env (method args) w) as [oc w1] eqn:Hcall.
    cbn. intros H. inversion H; subst. cbn. rewrite Hcall. apply Hfinish.
  - destruct (handler env _ w) as [oc w1] eqn:Hcall.
    cbn. intros H. inversion H; subst. cbn. rewrite Hcall. apply Hfinish.
  - discriminate.
Qed.

Lemma route_without_fields (n : string) (substitute : bool)
    (method : obj number -> HandlerCall number) :
  route_of number n = ToHandler substitute [] method -> substitute = true.
Proof.
  unfold route_of. each_name_test; intros H; inversion H; reflexivity.
Qed.

(** X6. A tool whose schema requires no field cannot fail validation,
    whatever it is called with, arguments absent included: its one
    collaborator is always called, a handler that takes arguments getting
    the argument object, or [{}] in its absence.  [get_access_token] and
    [get_available_genres] do not look at the arguments at all. *)
Theorem no_required_field_always_dispatched
    (t : Tool) (arguments : option (obj number))
    (W : Type) (env : collaborators number W) (w : W) :
  In t tools ->
  required_fields t = [] ->
  (exists eff,
      snd (run env (CallTool show_number
                      {| params_name := name t;
                         params_arguments := arguments |}) w) = [eff]
      /\ forall c args,
           eff = HandlerInvoked c -> call_args c = Some args ->
           args = arguments_or_empty arguments)
  /\ (name t = "get_access_token" \/ name t = "get_available_genres" ->
      forall arguments',
        run env (CallTool show_number
                   {| params_name := name t;
                      params_arguments := arguments' |}) w
        = run env (CallTool show_number
                     {| params_name := name t;
                        params_arguments := arguments |}) w).
Proof.
  intros Hin Hreq.
  pose proof (proj1 (Forall_forall _ _) (catalog_routes number) t Hin)
    as Hroute.
  cbv beta in Hroute. split.
  - rewrite run_CallTool. cbn [params_name params_arguments].
    destruct (route_of number (name t))
      as [| substitute fields method | |] eqn:Hr; try contradiction.
    + destruct (authManager_getAccessToken env w). eexists. split.
      * reflexivity.
      * intros c args H. discriminate H.
    + destruct Hroute as [-> _]. rewrite Hreq in *.
      rewrite (route_without_fields _ _ _ Hr). cbn zeta.
      destruct arguments as [a |]; cbn;
        destruct (handler env _ w); eexists; (split; [reflexivity |]);
        intros c args H Hc; inversion H; subst;
        rewrite (route_handler_args number _ _ _ _ _ Hr) in Hc;
        inversion Hc; reflexivity.
    + destruct (handler env _ w). eexists. split.
      * reflexivity.
      * intros c args H Hc. inversion H; subst. discriminate Hc.
  - intros Hname arguments'. rewrite !run_CallTool.
    cbn [params_name params_arguments].
    destruct Hname as [-> | ->]; reflexivity.
Qed.

Lemma fulfilled_text (W : Type) (env : collaborators number W)
    (req : CallToolRequest number) (w w' : W) (r : CallToolResult)
    (c : HandlerCall number) (body : json number) :
  run env (CallTool show_number req) w = (Fulfilled r, w', [HandlerInvoked c]) ->
  handler env c w = (Fulfilled body, w') ->
  r = text_content (JSON_stringify show_number body 2).
Proof.
  rewrite run_CallTool. intros Hrun Hcall.
  destruct (route_of number (params_name req))
    as [| substitute fields method | |].
  - destruct (authManager_getAccessToken env w). discriminate Hrun.
  - cbn zeta in Hrun. destruct (validateArgs _ fields) as [args | e];
      [| discriminate Hrun].
    destruct (handler env (method args) w) as [oc w1] eqn:Hh.
    inversion Hrun; subst. rewrite Hh in Hcall. inversion Hcall; subst.
    cbn in *. congruence.
  - destruct (handler env _ w) as [oc w1] eqn:Hh.
    inversion Hrun; subst. rewrite Hh in Hcall. inversion Hcall; subst.
    cbn in *. congruence.
  - discriminate Hrun.
Qed.

(** X7. The text returned tells the bodies apart: two successful calls
    that return the same result had handlers returning the same body
    (bodies being JS values and numbers written in a form that reads
    back). *)
Theorem equal_results_equal_bodies
    (W1 W2 : Type) (env1 : collaborators number W1)
    (env2 : collaborators number W2)
    (req1 req2 : CallToolRequest number) (w1 w1' : W1) (w2 w2' : W2)
    (r : CallToolResult) (c1 c2 : HandlerCall number)
    (body1 body2 : json number) :
  number_format show_number read_number ->
  run env1 (CallTool show_number req1) w1
  = (Fulfilled r, w1', [HandlerInvoked c1]) ->
  run env2 (CallTool show_number req2) w2
  = (Fulfilled r, w2', [HandlerInvoked c2]) ->
  handler env1 c1 w1 = (Fulfilled body1, w1') ->
  handler env2 c2 w2 = (Fulfilled body2, w2') ->
  distinct_keys body1 = true -> distinct_keys body2 = true ->
  body1 = body2.
Proof.
  intros Hnumbers Hrun1 Hrun2 Hcall1 Hcall2 Hkeys1 Hkeys2.
  pose proof (fulfilled_text _ _ _ _ _ _ _ _ Hrun1 Hcall1) as Hr1.
  pose proof (fulfilled_text _ _ _ _ _ _ _ _ Hrun2 Hcall2) as Hr2.
  rewrite Hr1 in Hr2. inversion Hr2 as [Htext].
  pose proof (parse_stringify number show_number read_number Hnumbers
                body1 2 Hkeys1) as Hp1.
  pose proof (parse_stringify number show_number read_number Hnumbers
                body2 2 Hkeys2) as Hp2.
  rewrite Htext in Hp1. congruence.
Qed.

Lemma invoked_method (W : Type) (env : collaborators number W)
    (req : CallToolRequest number) (w : W) (c : HandlerCall number) :
  snd (run env (CallTool show_number req) w) = [HandlerInvoked c] ->
  tool_of_method (method_of c) = params_name req.
Proof.
  rewrite run_CallTool.
  destruct (route_of number (params_name req))
    as [| substitute fields method | |] eqn:Hr.
  - destruct (authManager_getAccessToken env w). discriminate.
  - cbn zeta. destruct (validateArgs _ fields) as [args | e];
      [| discriminate].
    destruct (handler env (method args) w). cbn. intros H.
    inversion H; subst. apply (route_method_fixed _ _ _ _ args Hr).
  - destruct (handler env _ w). cbn. intros H. inversion H; subst.
    symmetry. apply (route_genres number _ Hr).
  - discriminate.
Qed.

(** X8. No two tools share a handler method: when two tool calls invoke
    the same method, they are calls of the same tool. *)
Theorem handler_method_serves_one_tool
    (W1 W2 : Type) (env1 : collaborators number W1)
    (env2 : collaborators number W2)
    (req1 req2 : CallToolRequest number) (w1 : W1) (w2 : W2)
    (c1 c2 : HandlerCall number) :
  snd (run env1 (CallTool show_number req1) w1) = [HandlerInvoked c1] ->
  snd (run env2 (CallTool show_number req2) w2) = [HandlerInvoked c2] ->
  method_of c1 = method_of c2 ->
  params_name req1 = params_name req2.
Proof.
  intros H1 H2 Hm.
  rewrite <- (invoked_method _ _ _ _ _ H1), <- (invoked_method _ _ _ _ _ H2).
  now rewrite Hm.
Qed.

End FurtherProperties.

Ltac distinct_strings :=
  repeat (constructor; [cbn; intuition discriminate |]); constructor.

(** X9. The catalog is consistent with itself: tool names are distinct,
    and in every schema the property names are distinct, every required
    field is a declared property, every default lies within the declared
    bounds, every enumeration lists distinct values, and every item limit
    is positive. *)
Theorem catalog_consistent :
  NoDup names /\ Forall schema_consistent tools.
Proof.
  split; [distinct_strings |].
  repeat (apply Forall_cons; [| ]); try apply Forall_nil;
    (split; [reflexivity |]);
    (split; [cbn; distinct_strings |]);
    (split; [intros f Hf; cbn in *; tauto |]);
    cbn; repeat (constructor; cbn);
    try lia; try discriminate; try distinct_strings; auto;
    intuition discriminate.
Qed.

(** ** The further properties at work *)

(** [get_artist] with an extra, undeclared field. *)
Lemma verbose_artist_call_accepted :
  exists c',
    snd (run (answering (Fulfilled "BQDtoken") (fun _ => Fulfilled an_artist))
             (CallTool show_integer
                {| params_name := "get_artist";
                   params_arguments := Some artist_id_and_more |}) 0)
    = [HandlerInvoked c']
    /\ method_of c' = method_of (artistsHandler_getArtist Z artist_id)
    /\ (call_args (artistsHandler_getArtist Z artist_id) = Some artist_id ->
        call_args c' = Some artist_id_and_more).
Proof.
  apply (undeclared_fields_accepted Z show_integer "get_artist"
           artist_id artist_id_and_more
           (artistsHandler_getArtist Z artist_id) nat
           (answering (Fulfilled "BQDtoken") (fun _ => Fulfilled an_artist)) 0).
  - intros k. cbn.
    destruct (String.eqb k "id"); [intros _; apply orb_true_r | discriminate].
  - reflexivity.
Defined.

(** An upstream 401 during [get_artist] comes out of the tool call. *)
Lemma unauthorized_surfaces :
  match
    collaborator_failure
      (answering (Fulfilled "BQDtoken")
         (fun _ => Rejected
            (OtherError "Error: Request failed with status code 401")))
      0 (HandlerInvoked (artistsHandler_getArtist Z artist_id))
  with
  | Some thrown =>
      exists code message,
        Rejected (A := CallToolResult)
          (McpError InternalError
             "Unexpected error: Error: Request failed with status code 401")
        = Rejected (McpError code message)
        /\ (thrown = McpError code message
            \/ exists rendering,
                 thrown = OtherError rendering
                 /\ code = InternalError
                 /\ message = "Unexpected error: " ++ rendering)
  | None =>
      exists result,
        Rejected (A := CallToolResult)
          (McpError InternalError
             "Unexpected error: Error: Request failed with status code 401")
        = Fulfilled result
  end.
Proof.
  apply (collaborator_failure_surfaces Z show_integer nat
           (answering (Fulfilled "BQDtoken")
              (fun _ => Rejected
                 (OtherError "Error: Request failed with status code 401")))
           {| params_name := "get_artist";
              params_arguments := Some artist_id |} 0 1).
  reflexivity.
Defined.

(** [get_new_releases] without arguments calls its handler with [{}]. *)
Lemma new_releases_without_arguments :
  (exists eff,
      snd (run (answering (Fulfilled "BQDtoken") (fun _ => Fulfilled an_artist))
               (CallTool show_integer
                  {| params_name := "get_new_releases";
                     params_arguments := None |}) 0) = [eff]
      /\ forall c args,
           eff = HandlerInvoked c -> call_args c = Some args ->
           args = arguments_or_empty None)
  /\ ("get_new_releases" = "get_access_token"
      \/ "get_new_releases" = "get_available_genres" ->
      forall arguments',
        run (answering (Fulfilled "BQDtoken") (fun _ => Fulfilled an_artist))
            (CallTool show_integer
               {| params_name := "get_new_releases";
                  params_arguments := arguments' |}) 0
        = run (answering (Fulfilled "BQDtoken") (fun _ => Fulfilled an_artist))
              (CallTool show_integer
                 {| params_name := "get_new_releases";
                    params_arguments := None |}) 0).
Proof.
  apply (no_required_field_always_dispatched Z show_integer
           (tool_named "get_new_releases") None nat
           (answering (Fulfilled "BQDtoken") (fun _ => Fulfilled an_artist)) 0).
  - cbn. tauto.
  - reflexivity.
Defined.

(** Two [get_artist] calls with the same text had the same body. *)
Lemma same_artist_text_same_artist : an_artist = an_artist.
Proof.
  apply (equal_results_equal_bodies Z show_integer read_integer nat nat
           (answering (Fulfilled "BQDtoken") (fun _ => Fulfilled an_artist))
           (answering (Fulfilled "BQDtoken") (fun _ => Fulfilled an_artist))
           {| params_name := "get_artist";
              params_arguments := Some artist_id |}
           {| params_name := "get_artist";
              params_arguments := Some artist_id_and_more |}
           0 1 0 1
           (text_content (JSON_stringify show_integer an_artist 2))
           (artistsHandler_getArtist Z artist_id)
           (artistsHandler_getArtist Z artist_id_and_more)).
  - exact integer_format.
  - reflexivity.
  - reflexivity.
  - reflexivity.
  - reflexivity.
  - reflexivity.
  - reflexivity.
Defined.

(** Two calls that reach [artistsHandler.getArtist] are both [get_artist]. *)
Lemma get_artist_method_from_get_artist : "get_artist" = "get_artist".
Proof.
  apply (handler_method_serves_one_tool Z show_integer nat nat
           (answering (Fulfilled "BQDtoken") (fun _ => Fulfilled an_artist))
           (answering (Fulfilled "BQDtoken") (fun _ => Fulfilled an_artist))
           {| params_name := "get_artist";
              params_arguments := Some artist_id |}
           {| params_name := "get_artist";
              params_arguments := Some artist_id_and_more |}
           0 0
           (artistsHandler_getArtist Z artist_id)
           (artistsHandler_getArtist Z artist_id_and_more)).
  - reflexivity.
  - reflexivity.
  - reflexivity.
Defined.
